(** * Data Formulator, [src/app/App.tsx]: session import/export, embedding
      subscription, auth probe, view-mode toggle and avatar initials.

    The development is a shallow embedding of the handlers of [App.tsx].
    JavaScript values are an inductive type, strings are sequences of UTF-16
    code units, and the two runtime functions the session buttons rely on,
    [JSON.stringify] and [JSON.parse], are written out after ECMA-262
    (sections 25.5.1 and 25.5.2, no replacer, no reviver, no indentation). *)

From Stdlib Require Import List NArith ZArith Bool String Ascii Lia Decimal DecimalN.
Import ListNotations.

Set Warnings "-register-all".
Local Open Scope N_scope.

(** ** Strings *)

(** A JavaScript string is a sequence of UTF-16 code units, each a number
    below 2^16. *)
Definition jsstring := list N.

Definition ch (a : ascii) : N := N_of_ascii a.

Definition str (s : string) : jsstring := map ch (list_ascii_of_string s).

Fixpoint jsstring_eqb (a b : jsstring) : bool :=
  match a, b with
  | [], [] => true
  | x :: a', y :: b' => (x =? y) && jsstring_eqb a' b'
  | _, _ => false
  end.

(** ** Numbers *)

Inductive digit := D0 | D1 | D2 | D3 | D4 | D5 | D6 | D7 | D8 | D9.

Definition digit_eqb (a b : digit) : bool :=
  match a, b with
  | D0, D0 | D1, D1 | D2, D2 | D3, D3 | D4, D4
  | D5, D5 | D6, D6 | D7, D7 | D8, D8 | D9, D9 => true
  | _, _ => false
  end.

Definition digit_unit (d : digit) : N :=
  match d with
  | D0 => 48 | D1 => 49 | D2 => 50 | D3 => 51 | D4 => 52
  | D5 => 53 | D6 => 54 | D7 => 55 | D8 => 56 | D9 => 57
  end.

Definition unit_digit (c : N) : option digit :=
  match c with
  | 48 => Some D0 | 49 => Some D1 | 50 => Some D2 | 51 => Some D3
  | 52 => Some D4 | 53 => Some D5 | 54 => Some D6 | 55 => Some D7
  | 56 => Some D8 | 57 => Some D9
  | _ => None
  end.

Definition digits_string (s : list digit) : jsstring := map digit_unit s.

Fixpoint uint_digits (u : Decimal.uint) : list digit :=
  match u with
  | Nil => []
  | Decimal.D0 u => D0 :: uint_digits u
  | Decimal.D1 u => D1 :: uint_digits u
  | Decimal.D2 u => D2 :: uint_digits u
  | Decimal.D3 u => D3 :: uint_digits u
  | Decimal.D4 u => D4 :: uint_digits u
  | Decimal.D5 u => D5 :: uint_digits u
  | Decimal.D6 u => D6 :: uint_digits u
  | Decimal.D7 u => D7 :: uint_digits u
  | Decimal.D8 u => D8 :: uint_digits u
  | Decimal.D9 u => D9 :: uint_digits u
  end.

Fixpoint digits_uint (s : list digit) : Decimal.uint :=
  match s with
  | [] => Nil
  | D0 :: r => Decimal.D0 (digits_uint r)
  | D1 :: r => Decimal.D1 (digits_uint r)
  | D2 :: r => Decimal.D2 (digits_uint r)
  | D3 :: r => Decimal.D3 (digits_uint r)
  | D4 :: r => Decimal.D4 (digits_uint r)
  | D5 :: r => Decimal.D5 (digits_uint r)
  | D6 :: r => Decimal.D6 (digits_uint r)
  | D7 :: r => Decimal.D7 (digits_uint r)
  | D8 :: r => Decimal.D8 (digits_uint r)
  | D9 :: r => Decimal.D9 (digits_uint r)
  end.

(** Decimal digits of a natural number, most significant first ("0" for 0). *)
Definition N_digits (n : N) : list digit := uint_digits (N.to_uint n).

Definition digits_N (s : list digit) : N := N.of_uint (digits_uint s).

(** A Number value.  A finite number is kept in the form ECMA-262 uses to
    print it (Number::toString): the digits [s] of the shortest decimal
    significand, first and last digit non-zero, and the exponent [n], standing
    for [0.s * 10^n]; zero has no digits.  Rounding to IEEE doubles is not
    part of the model. *)
Inductive number :=
| NaN
| Infinity (negative : bool)
| Finite (negative : bool) (s : list digit) (n : Z).

Definition canonical (x : number) : bool :=
  match x with
  | Finite _ [] n => (n =? 0)%Z
  | Finite _ (d :: r) _ => negb (digit_eqb d D0) && negb (digit_eqb (last (d :: r) D1) D0)
  | _ => true
  end.

Definition is_finite (x : number) : bool :=
  match x with Finite _ _ _ => true | _ => false end.

Definition zeros (n : Z) : list digit := repeat D0 (Z.to_nat n).

(** Number::toString(x, 10) for x above zero, given by its digits
    [d :: r] and exponent [n]: plain digits, digits with a point, a
    fraction below one, or exponent notation. *)
Definition positive_to_string (d : digit) (r : list digit) (n : Z) : jsstring :=
  let s := d :: r in
  let k := Z.of_nat (List.length s) in
  if ((k <=? n) && (n <=? 21))%Z then
    digits_string (s ++ zeros (n - k))
  else if ((0 <? n) && (n <=? 21))%Z then
    digits_string (firstn (Z.to_nat n) s) ++ str "." ++
    digits_string (skipn (Z.to_nat n) s)
  else if ((-6 <? n) && (n <=? 0))%Z then
    str "0." ++ digits_string (zeros (- n) ++ s)
  else
    digits_string [d] ++
    (match r with [] => [] | _ => str "." ++ digits_string r end) ++
    str "e" ++ (if (n - 1 <? 0)%Z then str "-" else str "+") ++
    digits_string (N_digits (Z.abs_N (n - 1))).

(** Number::toString(x, 10). *)
Definition NumberToString (x : number) : jsstring :=
  match x with
  | NaN => str "NaN"
  | Infinity neg => (if neg then str "-" else []) ++ str "Infinity"
  | Finite _ [] _ => str "0"
  | Finite neg (d :: r) n =>
      (if neg then str "-" else []) ++ positive_to_string d r n
  end.

(** ** Values *)

(** The values that JSON text can denote, together with [undefined] and the
    non-finite numbers, which a state tree may hold but JSON cannot.  An
    object is its list of own properties in property-enumeration order
    (array-index keys ascending first, then the other keys in creation
    order). *)
Inductive value :=
| JUndefined
| JNull
| JBool (b : bool)
| JNumber (x : number)
| JString (s : jsstring)
| JArray (elements : list value)
| JObject (properties : list (jsstring * value)).

Section ValueInd.
Variable P : value -> Prop.
Hypothesis Hundef : P JUndefined.
Hypothesis Hnull : P JNull.
Hypothesis Hbool : forall b, P (JBool b).
Hypothesis Hnum : forall x, P (JNumber x).
Hypothesis Hstr : forall s, P (JString s).
Hypothesis Harr : forall l, Forall P l -> P (JArray l).
Hypothesis Hobj : forall ps, Forall (fun kv => P (snd kv)) ps -> P (JObject ps).

Fixpoint value_ind' (v : value) : P v :=
  match v with
  | JUndefined => Hundef
  | JNull => Hnull
  | JBool b => Hbool b
  | JNumber x => Hnum x
  | JString s => Hstr s
  | JArray l =>
      Harr l ((fix go (l : list value) : Forall P l :=
                 match l with
                 | [] => Forall_nil _
                 | e :: l' => Forall_cons _ (value_ind' e) (go l')
                 end) l)
  | JObject ps =>
      Hobj ps ((fix go (ps : list (jsstring * value))
                  : Forall (fun kv => P (snd kv)) ps :=
                  match ps with
                  | [] => Forall_nil _
                  | (k, e) :: ps' =>
                      Forall_cons (P := fun kv => P (snd kv)) (k, e)
                        (value_ind' e) (go ps')
                  end) ps)
  end.
End ValueInd.

(** ** JSON.stringify *)

Module JSON.

Definition hex_unit (n : N) : N :=
  if n <? 10 then 48 + n else 87 + n.

(** The four lower-case hexadecimal digits of a code unit. *)
Definition hex4 (c : N) : jsstring :=
  [hex_unit (c / 4096 mod 16); hex_unit (c / 256 mod 16);
   hex_unit (c / 16 mod 16); hex_unit (c mod 16)].

(** UnicodeEscape(C). *)
Definition UnicodeEscape (c : N) : jsstring := str "\u" ++ hex4 c.

Definition is_high_surrogate (c : N) : bool := (55296 <=? c) && (c <=? 56319).
Definition is_low_surrogate (c : N) : bool := (56320 <=? c) && (c <=? 57343).

(** One code unit that is not a surrogate, as QuoteJSONString writes it. *)
Definition quote_unit (c : N) : jsstring :=
  if c =? 8 then str "\b"
  else if c =? 9 then str "\t"
  else if c =? 10 then str "\n"
  else if c =? 12 then str "\f"
  else if c =? 13 then str "\r"
  else if c =? 34 then [92; 34]
  else if c =? 92 then [92; 92]
  else if c <? 32 then UnicodeEscape c
  else [c].

(** The body of QuoteJSONString: the string is read by code points, a
    surrogate pair is copied and a lone surrogate is escaped. *)
Fixpoint quote_body (s : jsstring) : jsstring :=
  match s with
  | [] => []
  | c :: r =>
      if is_high_surrogate c then
        match r with
        | c2 :: r2 =>
            if is_low_surrogate c2 then c :: c2 :: quote_body r2
            else UnicodeEscape c ++ quote_body r
        | [] => UnicodeEscape c
        end
      else if is_low_surrogate c then UnicodeEscape c ++ quote_body r
      else quote_unit c ++ quote_body r
  end.

Definition QuoteJSONString (s : jsstring) : jsstring :=
  34 :: quote_body s ++ [34].

Fixpoint join (sep : jsstring) (parts : list jsstring) : jsstring :=
  match parts with
  | [] => []
  | [p] => p
  | p :: ps => p ++ sep ++ join sep ps
  end.

(** SerializeJSONProperty: [None] is the result [undefined]. *)
Fixpoint SerializeJSONProperty (v : value) : option jsstring :=
  match v with
  | JUndefined => None
  | JNull => Some (str "null")
  | JBool true => Some (str "true")
  | JBool false => Some (str "false")
  | JNumber x => Some (if is_finite x then NumberToString x else str "null")
  | JString s => Some (QuoteJSONString s)
  | JArray l =>
      Some (str "[" ++
            join (str ",")
              (map (fun e => match SerializeJSONProperty e with
                             | Some t => t
                             | None => str "null"
                             end) l) ++
            str "]")
  | JObject ps =>
      Some (str "{" ++
            join (str ",")
              (flat_map (fun kv => match SerializeJSONProperty (snd kv) with
                                   | Some t => [QuoteJSONString (fst kv) ++ str ":" ++ t]
                                   | None => []
                                   end) ps) ++
            str "}")
  end.

Definition stringify (v : value) : option jsstring := SerializeJSONProperty v.

(** ** JSON.parse *)

(** Result of a parsing function: a value and the text left, a SyntaxError,
    or the recursion budget used up (which [parse] below never meets). *)
Inductive presult (A : Type) :=
| POk (a : A) (rest : jsstring)
| PSyntaxError
| PFuel.
Arguments POk {A} a rest.
Arguments PSyntaxError {A}.
Arguments PFuel {A}.

Definition is_ws (c : N) : bool :=
  (c =? 9) || (c =? 10) || (c =? 13) || (c =? 32).

Fixpoint skip_ws (s : jsstring) : jsstring :=
  match s with
  | c :: r => if is_ws c then skip_ws r else s
  | [] => []
  end.

Definition unhex (c : N) : option N :=
  if (48 <=? c) && (c <=? 57) then Some (c - 48)
  else if (97 <=? c) && (c <=? 102) then Some (c - 87)
  else if (65 <=? c) && (c <=? 70) then Some (c - 55)
  else None.

Definition unhex4 (a b c d : N) : option N :=
  match unhex a, unhex b, unhex c, unhex d with
  | Some x, Some y, Some z, Some w => Some (((x * 16 + y) * 16 + z) * 16 + w)
  | _, _, _, _ => None
  end.

(** The character a one-letter escape stands for. *)
Definition unescape (e : N) : option N :=
  if e =? 34 then Some 34
  else if e =? 92 then Some 92
  else if e =? 47 then Some 47
  else if e =? 98 then Some 8
  else if e =? 102 then Some 12
  else if e =? 110 then Some 10
  else if e =? 114 then Some 13
  else if e =? 116 then Some 9
  else None.

(** The characters of a JSON string after its opening quote, up to and
    including the closing quote. *)
Fixpoint parse_string_body (s : jsstring) : option (jsstring * jsstring) :=
  match s with
  | [] => None
  | c :: r =>
      if c =? 34 then Some ([], r)
      else if c =? 92 then
        match r with
        | [] => None
        | e :: r1 =>
            if e =? 117 then
              match r1 with
              | h1 :: h2 :: h3 :: h4 :: r2 =>
                  match unhex4 h1 h2 h3 h4, parse_string_body r2 with
                  | Some u, Some (t, rest) => Some (u :: t, rest)
                  | _, _ => None
                  end
              | _ => None
              end
            else
              match unescape e, parse_string_body r1 with
              | Some u, Some (t, rest) => Some (u :: t, rest)
              | _, _ => None
              end
        end
      else if c <? 32 then None
      else
        match parse_string_body r with
        | Some (t, rest) => Some (c :: t, rest)
        | None => None
        end
  end.

Fixpoint take_digits (s : jsstring) : list digit * jsstring :=
  match s with
  | c :: r =>
      match unit_digit c with
      | Some d => let (ds, rest) := take_digits r in (d :: ds, rest)
      | None => ([], s)
      end
  | [] => ([], [])
  end.

(** int: a single 0, or a non-zero digit followed by digits. *)
Definition parse_int_part (s : jsstring) : option (list digit * jsstring) :=
  match s with
  | c :: r =>
      match unit_digit c with
      | Some D0 => Some ([D0], r)
      | Some d => let (ds, rest) := take_digits r in Some (d :: ds, rest)
      | None => None
      end
  | [] => None
  end.

(** frac: nothing, or a point followed by at least one digit. *)
Definition parse_frac (s : jsstring) : option (list digit * jsstring) :=
  match s with
  | c :: r =>
      if c =? 46 then
        match take_digits r with
        | ([], _) => None
        | (ds, rest) => Some (ds, rest)
        end
      else Some ([], s)
  | [] => Some ([], [])
  end.

(** exp: nothing, or e or E, an optional sign and at least one digit. *)
Definition parse_exp (s : jsstring) : option (Z * jsstring) :=
  match s with
  | c :: r =>
      if (c =? 101) || (c =? 69) then
        let '(neg, r1) :=
          match r with
          | c1 :: r' =>
              if c1 =? 45 then (true, r')
              else if c1 =? 43 then (false, r')
              else (false, r)
          | [] => (false, r)
          end in
        match take_digits r1 with
        | ([], _) => None
        | (ds, rest) =>
            Some (if neg then (- Z.of_N (digits_N ds))%Z else Z.of_N (digits_N ds), rest)
        end
      else Some (0%Z, s)
  | [] => Some (0%Z, [])
  end.

Fixpoint strip_zeros (s : list digit) : list digit :=
  match s with
  | D0 :: r => strip_zeros r
  | _ => s
  end.

Fixpoint leading_zeros (s : list digit) : nat :=
  match s with
  | D0 :: r => S (leading_zeros r)
  | _ => O
  end.

(** The Number value of the literal [int.frac e exp]. *)
Definition make_number (neg : bool) (int frac : list digit) (e : Z) : number :=
  let all := int ++ frac in
  match List.rev (strip_zeros (List.rev (strip_zeros all))) with
  | [] => Finite neg [] 0
  | s => Finite neg s (Z.of_nat (List.length int) - Z.of_nat (leading_zeros all) + e)
  end.

(** A number literal after its sign. *)
Definition parse_unsigned (neg : bool) (s1 : jsstring) : presult value :=
  match parse_int_part s1 with
  | Some (int, s2) =>
      match parse_frac s2 with
      | Some (frac, s3) =>
          match parse_exp s3 with
          | Some (e, s4) => POk (JNumber (make_number neg int frac e)) s4
          | None => PSyntaxError
          end
      | None => PSyntaxError
      end
  | None => PSyntaxError
  end.

Definition parse_number (s : jsstring) : presult value :=
  match s with
  | c :: r => if c =? 45 then parse_unsigned true r else parse_unsigned false s
  | [] => PSyntaxError
  end.

Fixpoint strip_prefix (p s : jsstring) : option jsstring :=
  match p, s with
  | [], _ => Some s
  | a :: p', b :: s' => if a =? b then strip_prefix p' s' else None
  | _ :: _, [] => None
  end.

(** *** Own properties of an ordinary object *)

Fixpoint string_digits (s : jsstring) : option (list digit) :=
  match s with
  | [] => Some []
  | c :: r =>
      match unit_digit c, string_digits r with
      | Some d, Some ds => Some (d :: ds)
      | _, _ => None
      end
  end.

(** The array index a property key denotes, if it is one: the key is the
    canonical decimal form of an integer below 2^32 - 1. *)
Definition array_index (k : jsstring) : option N :=
  match string_digits k with
  | Some (d :: r) =>
      if digit_eqb d D0 && negb (match r with [] => true | _ => false end) then None
      else if digits_N (d :: r) <? 4294967295 then Some (digits_N (d :: r))
      else None
  | _ => None
  end.

Definition has_key (k : jsstring) (o : list (jsstring * value)) : bool :=
  existsb (fun kv => jsstring_eqb (fst kv) k) o.

Fixpoint replace_prop (k : jsstring) (v : value) (o : list (jsstring * value))
  : list (jsstring * value) :=
  match o with
  | [] => []
  | (k', v') :: r =>
      if jsstring_eqb k' k then (k', v) :: r else (k', v') :: replace_prop k v r
  end.

Fixpoint insert_index (i : N) (k : jsstring) (v : value)
  (o : list (jsstring * value)) : list (jsstring * value) :=
  match o with
  | [] => [(k, v)]
  | (k', v') :: r =>
      match array_index k' with
      | Some j => if j <? i then (k', v') :: insert_index i k v r else (k, v) :: o
      | None => (k, v) :: o
      end
  end.

(** CreateDataProperty(O, k, v) on an ordinary object: an existing property
    keeps its place, a new one takes its place in enumeration order. *)
Definition CreateDataProperty (o : list (jsstring * value)) (k : jsstring) (v : value)
  : list (jsstring * value) :=
  if has_key k o then replace_prop k v o
  else match array_index k with
       | Some i => insert_index i k v o
       | None => o ++ [(k, v)]
       end.

(** *** The grammar *)

Fixpoint parse_value (fuel : nat) (s : jsstring) {struct fuel} : presult value :=
  match fuel with
  | O => PFuel
  | S fuel =>
      match skip_ws s with
      | [] => PSyntaxError
      | c :: r =>
          if c =? 123 then
            match skip_ws r with
            | c1 :: r1 =>
                if c1 =? 125 then POk (JObject []) r1
                else parse_members fuel [] (c1 :: r1)
            | [] => PSyntaxError
            end
          else if c =? 91 then
            match skip_ws r with
            | c1 :: r1 =>
                if c1 =? 93 then POk (JArray []) r1
                else parse_elements fuel [] (c1 :: r1)
            | [] => PSyntaxError
            end
          else if c =? 34 then
            match parse_string_body r with
            | Some (t, rest) => POk (JString t) rest
            | None => PSyntaxError
            end
          else if c =? 116 then
            match strip_prefix (str "rue") r with
            | Some rest => POk (JBool true) rest
            | None => PSyntaxError
            end
          else if c =? 102 then
            match strip_prefix (str "alse") r with
            | Some rest => POk (JBool false) rest
            | None => PSyntaxError
            end
          else if c =? 110 then
            match strip_prefix (str "ull") r with
            | Some rest => POk JNull rest
            | None => PSyntaxError
            end
          else parse_number (c :: r)
      end
  end

with parse_elements (fuel : nat) (acc : list value) (s : jsstring) {struct fuel}
  : presult value :=
  match fuel with
  | O => PFuel
  | S fuel =>
      match parse_value fuel s with
      | POk v rest =>
          match skip_ws rest with
          | c :: r =>
              if c =? 44 then parse_elements fuel (acc ++ [v]) r
              else if c =? 93 then POk (JArray (acc ++ [v])) r
              else PSyntaxError
          | [] => PSyntaxError
          end
      | PSyntaxError => PSyntaxError
      | PFuel => PFuel
      end
  end

with parse_members (fuel : nat) (acc : list (jsstring * value)) (s : jsstring)
  {struct fuel} : presult value :=
  match fuel with
  | O => PFuel
  | S fuel =>
      match skip_ws s with
      | c :: r =>
          if c =? 34 then
            match parse_string_body r with
            | Some (k, rest) =>
                match skip_ws rest with
                | c1 :: r1 =>
                    if c1 =? 58 then
                      match parse_value fuel r1 with
                      | POk v rest2 =>
                          match skip_ws rest2 with
                          | c2 :: r2 =>
                              if c2 =? 44 then
                                parse_members fuel (CreateDataProperty acc k v) r2
                              else if c2 =? 125 then
                                POk (JObject (CreateDataProperty acc k v)) r2
                              else PSyntaxError
                          | [] => PSyntaxError
                          end
                      | PSyntaxError => PSyntaxError
                      | PFuel => PFuel
                      end
                    else PSyntaxError
                | [] => PSyntaxError
                end
            | None => PSyntaxError
            end
          else PSyntaxError
      | [] => PSyntaxError
      end
  end.

(** JSON.parse(text): [None] is a thrown SyntaxError. *)
Definition parse (text : jsstring) : option value :=
  match parse_value (2 * List.length text + 1) text with
  | POk v rest =>
      match skip_ws rest with
      | [] => Some v
      | _ :: _ => None
      end
  | _ => None
  end.

End JSON.

(** ** The JavaScript operations the handlers use *)

(** How an evaluation ends: normally with a value, or by throwing. *)
Inductive exn := TypeError | SyntaxError | Rejected.

Inductive completion (A : Type) :=
| Normal (a : A)
| Throw (e : exn).
Arguments Normal {A} a.
Arguments Throw {A} e.

Definition number_of_N (n : N) : number :=
  JSON.make_number false (N_digits n) [] 0.

(** ToBoolean. *)
Definition truthy (v : value) : bool :=
  match v with
  | JUndefined | JNull => false
  | JBool b => b
  | JNumber NaN => false
  | JNumber (Finite _ [] _) => false
  | JNumber _ => true
  | JString [] => false
  | JString _ => true
  | JArray _ | JObject _ => true
  end.

Definition get_prop (ps : list (jsstring * value)) (k : jsstring) : value :=
  match find (fun kv => jsstring_eqb (fst kv) k) ps with
  | Some kv => snd kv
  | None => JUndefined
  end.

(** [v[k]] for a key [k] that names no member of a prototype: own data
    properties, array and string indices and [length]. *)
Definition Get (v : value) (k : jsstring) : completion value :=
  match v with
  | JUndefined | JNull => Throw TypeError
  | JObject ps => Normal (get_prop ps k)
  | JArray l =>
      match JSON.array_index k with
      | Some i => Normal (nth (N.to_nat i) l JUndefined)
      | None =>
          if jsstring_eqb k (str "length")
          then Normal (JNumber (number_of_N (N.of_nat (List.length l))))
          else Normal JUndefined
      end
  | JString s =>
      match JSON.array_index k with
      | Some i =>
          Normal (match nth_error s (N.to_nat i) with
                  | Some c => JString [c]
                  | None => JUndefined
                  end)
      | None =>
          if jsstring_eqb k (str "length")
          then Normal (JNumber (number_of_N (N.of_nat (List.length s))))
          else Normal JUndefined
      end
  | JBool _ | JNumber _ => Normal JUndefined
  end.

(** ToString.  An object made of data properties only has no callable
    [toString] of its own: an own property of that name hides
    Object.prototype.toString and the conversion throws. *)
Fixpoint ToString (v : value) : completion jsstring :=
  match v with
  | JUndefined => Normal (str "undefined")
  | JNull => Normal (str "null")
  | JBool true => Normal (str "true")
  | JBool false => Normal (str "false")
  | JNumber x => Normal (NumberToString x)
  | JString s => Normal s
  | JArray l =>
      (fix join_elements (l : list value) : completion jsstring :=
         match l with
         | [] => Normal []
         | e :: r =>
             match (match e with
                    | JUndefined | JNull => Normal []
                    | _ => ToString e
                    end) with
             | Throw x => Throw x
             | Normal t =>
                 match r with
                 | [] => Normal t
                 | _ :: _ =>
                     match join_elements r with
                     | Normal u => Normal (t ++ str "," ++ u)
                     | Throw x => Throw x
                     end
                 end
             end
         end) l
  | JObject ps =>
      if JSON.has_key (str "toString") ps then Throw TypeError
      else Normal (str "[object Object]")
  end.

(** [x == s] for a string [s] that is not the text of a number. *)
Definition loosely_equals_word (x : value) (s : jsstring) : completion bool :=
  match x with
  | JUndefined | JNull => Normal false
  | JBool _ | JNumber _ => Normal false
  | JString t => Normal (jsstring_eqb t s)
  | JArray _ | JObject _ =>
      match ToString x with
      | Normal t => Normal (jsstring_eqb t s)
      | Throw e => Throw e
      end
  end.

(** [s.split(sep)] for a separator of one code unit. *)
Fixpoint split_on (sep : N) (s : jsstring) : list jsstring :=
  match s with
  | [] => [[]]
  | c :: r =>
      if c =? sep then [] :: split_on sep r
      else match split_on sep r with
           | w :: ws => (c :: w) :: ws
           | [] => [[c]]
           end
  end.

(** ** stringAvatar *)

(** [name.split(' ')]: only a string has a [split] method. *)
Definition call_split (name : value) : completion (list value) :=
  match name with
  | JString s => Normal (map JString (split_on 32 s))
  | _ => Throw TypeError
  end.

(** The body of the [try] block: the template literal of the initials. *)
Definition initials (name : value) : completion value :=
  match call_split name with
  | Throw e => Throw e
  | Normal nameSplit =>
      match Get (nth 0 nameSplit JUndefined) (str "0") with
      | Throw e => Throw e
      | Normal first =>
          match ToString first with
          | Throw e => Throw e
          | Normal a =>
              if (1 <? List.length nameSplit)%nat then
                match Get (nth (List.length nameSplit - 1) nameSplit JUndefined) (str "0") with
                | Throw e => Throw e
                | Normal lst =>
                    match ToString lst with
                    | Throw e => Throw e
                    | Normal b => Normal (JString (a ++ b))
                    end
                end
              else Normal (JString (a ++ []))
          end
      end
  end.

(** The [catch] block: [name ? name[0] : "?"]. *)
Definition fallback (name : value) : completion value :=
  if truthy name then Get name (str "0") else Normal (JString (str "?")).

Definition num (s : list digit) (n : Z) : value := JNumber (Finite false s n).

Definition avatar (displayName : value) : value :=
  JObject
    [(str "sx",
      JObject [(str "bgcolor", JString (str "cornflowerblue"));
               (str "width", num [D3; D6] 2);
               (str "height", num [D3; D6] 2);
               (str "margin", JString (str "auto"));
               (str "fontSize", JString (str "1rem"))]);
     (str "children", displayName)].

Definition stringAvatar (name : value) : completion value :=
  match (match initials name with
         | Normal d => Normal d
         | Throw _ => fallback name
         end) with
  | Normal displayName => Normal (avatar displayName)
  | Throw e => Throw e
  end.

(** ** The store, the bridge and the component state *)

(** What [dispatch] is given: the slice's actions and the two thunks. *)
Inductive action :=
| loadState (savedState : value)
| loadTable (table : value)
| setVisViewMode (mode : jsstring)
| resetState
| fetchFieldSemanticType (table : value)
| fetchAvailableModels.

Record UserInfo := { name : value; userId : value }.

(** An object given to the bridge: which callback slots it has and whether
    it is the one [AppFC] builds. *)
Record ActionSubscription := {
  has_loadData : bool;
  has_setAppConfig : bool;
  of_app : bool
}.

Inductive bridge_event :=
| LoadData (table : value)
| SetAppConfig (config : value).

Inductive bridge_call :=
| Subscribe (sub : nat)
| Unsubscribe (sub : nat).

Record World := {
  state : value;                      (* the store's state tree *)
  dispatched : list action;           (* what dispatch received, oldest first *)
  userInfo : option UserInfo;         (* useState, undefined at first *)
  popupConfig : value;                (* useState<PopupConfig>({}) *)
  appConfig : value;                  (* the module variable of utils *)
  console : list jsstring;            (* console.error *)
  inputValue : option jsstring;       (* inputRef.current and its value *)
  objects : list ActionSubscription;  (* subscription objects, by identity *)
  registry : list nat;                (* the bridge's registered objects *)
  bridge_calls : list bridge_call;
  invocations : list (nat * bridge_event);
  cleanup : option nat                (* the object the pending cleanup holds *)
}.

Definition M (A : Type) : Type := World -> completion A * World.

Definition ret {A} (a : A) : M A := fun w => (Normal a, w).

Definition bind {A B} (m : M A) (k : A -> M B) : M B :=
  fun w => match m w with
           | (Normal a, w') => k a w'
           | (Throw e, w') => (Throw e, w')
           end.

Definition throw {A} (e : exn) : M A := fun w => (Throw e, w).

(** [try m catch h], and a promise's [.catch(h)]. *)
Definition catch {A} (m : M A) (h : exn -> M A) : M A :=
  fun w => match m w with
           | (Normal a, w') => (Normal a, w')
           | (Throw e, w') => h e w'
           end.

Definition lift {A} (c : completion A) : M A := fun w => (c, w).

Notation "x <- m ;; k" := (bind m (fun x => k))
  (at level 61, m at next level, right associativity).
Notation "m ;;; k" := (bind m (fun _ => k))
  (at level 61, right associativity).

Definition set_state (s : value) (a : action) (w : World) : World :=
  {| state := s; dispatched := dispatched w ++ [a]; userInfo := userInfo w;
     popupConfig := popupConfig w; appConfig := appConfig w;
     console := console w; inputValue := inputValue w; objects := objects w;
     registry := registry w; bridge_calls := bridge_calls w;
     invocations := invocations w; cleanup := cleanup w |}.

Definition setUserInfo (u : UserInfo) : M unit := fun w =>
  (Normal tt,
   {| state := state w; dispatched := dispatched w; userInfo := Some u;
      popupConfig := popupConfig w; appConfig := appConfig w;
      console := console w; inputValue := inputValue w; objects := objects w;
      registry := registry w; bridge_calls := bridge_calls w;
      invocations := invocations w; cleanup := cleanup w |}).

Definition setPopupConfig (p : value) : M unit := fun w =>
  (Normal tt,
   {| state := state w; dispatched := dispatched w; userInfo := userInfo w;
      popupConfig := p; appConfig := appConfig w;
      console := console w; inputValue := inputValue w; objects := objects w;
      registry := registry w; bridge_calls := bridge_calls w;
      invocations := invocations w; cleanup := cleanup w |}).

Definition set_appConfig (c : value) (w : World) : World :=
  {| state := state w; dispatched := dispatched w; userInfo := userInfo w;
     popupConfig := popupConfig w; appConfig := c;
     console := console w; inputValue := inputValue w; objects := objects w;
     registry := registry w; bridge_calls := bridge_calls w;
     invocations := invocations w; cleanup := cleanup w |}.

Definition console_error (msg : jsstring) : M unit := fun w =>
  (Normal tt,
   {| state := state w; dispatched := dispatched w; userInfo := userInfo w;
      popupConfig := popupConfig w; appConfig := appConfig w;
      console := console w ++ [msg]; inputValue := inputValue w;
      objects := objects w; registry := registry w;
      bridge_calls := bridge_calls w; invocations := invocations w;
      cleanup := cleanup w |}).

Definition set_inputValue (v : option jsstring) (w : World) : World :=
  {| state := state w; dispatched := dispatched w; userInfo := userInfo w;
     popupConfig := popupConfig w; appConfig := appConfig w;
     console := console w; inputValue := v; objects := objects w;
     registry := registry w; bridge_calls := bridge_calls w;
     invocations := invocations w; cleanup := cleanup w |}.

Definition set_bridge (os : list ActionSubscription) (r : list nat)
  (cs : list bridge_call) (c : option nat) (w : World) : World :=
  {| state := state w; dispatched := dispatched w; userInfo := userInfo w;
     popupConfig := popupConfig w; appConfig := appConfig w;
     console := console w; inputValue := inputValue w; objects := os;
     registry := r; bridge_calls := cs;
     invocations := invocations w; cleanup := c |}.

Definition log_invocation (sub : nat) (ev : bridge_event) : M unit := fun w =>
  (Normal tt,
   {| state := state w; dispatched := dispatched w; userInfo := userInfo w;
      popupConfig := popupConfig w; appConfig := appConfig w;
      console := console w; inputValue := inputValue w; objects := objects w;
      registry := registry w; bridge_calls := bridge_calls w;
      invocations := invocations w ++ [(sub, ev)]; cleanup := cleanup w |}).

(** ** The handlers of App.tsx *)

(** What [file.text()] settles to: the text, or nothing when the read is
    rejected. *)
Inductive file := File (content : option jsstring).

(** What [fetch('/.auth/me')] settles to. *)
Inductive fetch_reply :=
| NetworkError
| Response (body : jsstring).

Section App.

(** The slice's reducer and [assignAppConfig] live in [dfSlice] and
    [utils]; the handlers are read for any such functions. *)
Variable reducer : value -> action -> value.
Variable assignAppConfig : value -> value -> value.

(** The store's [dispatch]: the reducer's result replaces the tree. *)
Definition dispatch (a : action) : M unit := fun w =>
  (Normal tt, set_state (reducer (state w) a) a w).

(** *** ExportStateButton *)

Definition fullStateJson (w : World) : option jsstring :=
  JSON.stringify (state w).

(** *** ImportStateButton *)

(** The callback given to [file.text().then]. *)
Definition on_file_text (text : jsstring) : M unit :=
  catch
    (match JSON.parse text with
     | Some savedState => dispatch (loadState savedState)
     | None => throw SyntaxError
     end)
    (fun error => console_error (str "Failed to parse state file:")).

(** The synchronous part of [handleFileUpload]: the reads are started and
    the input is reset; the result is the list of reads under way. *)
Definition handleFileUpload (files : option (list file)) : M (list file) :=
  fun w =>
    (Normal (match files with Some fs => fs | None => [] end),
     match inputValue w with
     | Some _ => set_inputValue (Some []) w
     | None => w
     end).

(** The reads settle and their callbacks run. *)
Fixpoint settle_reads (fs : list file) : M unit :=
  match fs with
  | [] => ret tt
  | File (Some text) :: r => on_file_text text ;;; settle_reads r
  | File None :: r => settle_reads r
  end.

Definition file_change (files : option (list file)) : M unit :=
  pending <- handleFileUpload files ;; settle_reads pending.

(** *** AppFC: the embedding subscription *)

Definition loadData_callback (table : value) : M unit :=
  dispatch (loadTable table) ;;; dispatch (fetchFieldSemanticType table).

Definition setAppConfig_callback (config : value) : M unit :=
  (fun w => (Normal tt, set_appConfig (assignAppConfig config (appConfig w)) w)) ;;;
  (pc <- lift (Get config (str "popupConfig")) ;;
   if truthy pc then setPopupConfig pc else ret tt).

(** Modelled from the spec: [subscribe] of the embedding bridge ([embed]
    is not among the sources).  Section 4.2: the object is registered by
    identity, and registering it twice does not duplicate delivery. *)
Definition subscribe (sub : nat) : M unit := fun w =>
  (Normal tt,
   set_bridge (objects w)
     (if existsb (Nat.eqb sub) (registry w) then registry w
      else registry w ++ [sub])
     (bridge_calls w ++ [Subscribe sub]) (cleanup w) w).

(** Modelled from the spec: [unsubscribe] of the embedding bridge.
    Section 4.2: removal by identity, a no-op for an object that is not
    registered. *)
Definition unsubscribe (sub : nat) : M unit := fun w =>
  (Normal tt,
   set_bridge (objects w)
     (filter (fun j => negb (Nat.eqb j sub)) (registry w))
     (bridge_calls w ++ [Unsubscribe sub]) (cleanup w) w).

(** Modelled from the spec: one object is given an event.  Section 4.2: an
    absent slot is skipped silently.  The callbacks of the object [AppFC]
    builds are the two above; those of the host's objects are the host's
    own business. *)
Definition invoke (sub : nat) (ev : bridge_event) : M unit := fun w =>
  match nth_error (objects w) sub with
  | Some o =>
      match ev with
      | LoadData table =>
          if has_loadData o then
            (log_invocation sub ev ;;;
             (if of_app o then loadData_callback table else ret tt)) w
          else (Normal tt, w)
      | SetAppConfig config =>
          if has_setAppConfig o then
            (log_invocation sub ev ;;;
             (if of_app o then setAppConfig_callback config else ret tt)) w
          else (Normal tt, w)
      end
  | None => (Normal tt, w)
  end.

(** Modelled from the spec: section 4.2, in registration order. *)
Fixpoint invoke_all (subs : list nat) (ev : bridge_event) : M unit :=
  match subs with
  | [] => ret tt
  | sub :: r => invoke sub ev ;;; invoke_all r ev
  end.

(** Modelled from the spec: delivery of a host event.  Section 4.2: every
    registered object whose slot is present is invoked once, in
    registration order, over the set registered when delivery starts. *)
Definition deliver (ev : bridge_event) : M unit := fun w =>
  invoke_all (registry w) ev w.

(** The effect run at mount: a new subscription object is built and
    given to [subscribe]; the cleanup returned holds that object. *)
Definition mount : M unit := fun w =>
  let sub := List.length (objects w) in
  subscribe sub
    (set_bridge
       (objects w ++ [{| has_loadData := true; has_setAppConfig := true;
                         of_app := true |}])
       (registry w) (bridge_calls w) (Some sub) w).

(** Teardown runs the cleanup. *)
Definition unmount : M unit := fun w =>
  match cleanup w with
  | Some sub =>
      let (r, w') := unsubscribe sub w in
      (r, set_bridge (objects w') (registry w') (bridge_calls w') None w')
  | None => (Normal tt, w)
  end.

(** *** AppFC: the auth probe *)

Definition fetch (reply : fetch_reply) : M jsstring :=
  match reply with
  | NetworkError => throw Rejected
  | Response body => ret body
  end.

(** [response.json()]. *)
Definition response_json (body : jsstring) : M value :=
  match JSON.parse body with
  | Some v => ret v
  | None => throw SyntaxError
  end.

(** [claims.find(item => item.typ == 'name')] on the elements. *)
Fixpoint find_claim (items : list value) : completion value :=
  match items with
  | [] => Normal JUndefined
  | item :: r =>
      match Get item (str "typ") with
      | Throw e => Throw e
      | Normal typ =>
          match loosely_equals_word typ (str "name") with
          | Throw e => Throw e
          | Normal true => Normal item
          | Normal false => find_claim r
          end
      end
  end.

(** Only an array has a [find] method. *)
Definition call_find (claims : value) : completion value :=
  match claims with
  | JArray l => find_claim l
  | _ => Throw TypeError
  end.

Definition auth_then (result : value) : M unit :=
  match result with
  | JArray (authInfo :: _) =>
      claims <- lift (Get authInfo (str "user_claims")) ;;
      found <- lift (call_find claims) ;;
      val <- lift (match found with
                   | JUndefined | JNull => Normal JUndefined
                   | _ => Get found (str "val")
                   end) ;;
      uid <- lift (Get authInfo (str "user_id")) ;;
      setUserInfo {| name := if truthy val then val else JString [];
                     userId := uid |}
  | _ => ret tt
  end.

Definition auth_probe (reply : fetch_reply) : M unit :=
  catch
    (response <- fetch reply ;;
     result <- response_json response ;;
     auth_then result)
    (fun err => ret tt).

(** *** AppFC: the view-mode toggle *)

Definition is_view_mode (m : jsstring) : bool :=
  jsstring_eqb m (str "gallery") || jsstring_eqb m (str "carousel")
  || jsstring_eqb m (str "database").

Definition viewMode_onChange (newViewMode : option jsstring) : M unit :=
  match newViewMode with
  | Some m => if is_view_mode m then dispatch (setVisViewMode m) else ret tt
  | None => ret tt
  end.

(** *** States reached by dispatching *)

Inductive reachable (initialState : value) : value -> Prop :=
| reach_initial : reachable initialState initialState
| reach_dispatch : forall s a,
    reachable initialState s -> reachable initialState (reducer s a).

End App.

(** ** The store of the spec *)

(** Modelled from the spec: the fields of the state tree that section 3
    names ([dfSlice] is not among the sources). *)
Definition state_tree (tables : list value) (mode : jsstring) (beta : bool) : value :=
  JObject [(str "tables", JArray tables);
           (str "visViewMode", JString mode);
           (str "betaMode", JBool beta)].

(** Modelled from the spec: the default state tree of [dfSlice], which is
    not among the sources.  Section 8: no tables; the spec leaves the default
    view mode open and "carousel" is taken here. *)
Definition initialState : value := state_tree [] (str "carousel") false.

(** Modelled from the spec: two tables are the same when their ids are
    (section 3: a table is known by its id). *)
Definition same_id (a b : value) : bool :=
  match Get a (str "id"), Get b (str "id") with
  | Normal (JString x), Normal (JString y) => jsstring_eqb x y
  | _, _ => false
  end.

(** Modelled from the spec: section 4.1, a table is appended, or replaces
    the one of the same id where that one stands. *)
Fixpoint put_table (t : value) (ts : list value) : list value :=
  match ts with
  | [] => [t]
  | u :: r => if same_id u t then t :: r else u :: put_table t r
  end.

(** Modelled from the spec: the structural validation of a snapshot
    (section 4.3: a required field missing or of the wrong type is a
    mismatch, unknown fields are kept). *)
Definition valid_state (s : value) : bool :=
  match s with
  | JObject ps =>
      match get_prop ps (str "tables"), get_prop ps (str "visViewMode"),
            get_prop ps (str "betaMode") with
      | JArray _, JString m, JBool _ => is_view_mode m
      | _, _, _ => false
      end
  | _ => false
  end.

(** Modelled from the spec: the reducer of [dfSlice], which is not among the
    sources.  Section 4.1: [loadTable] appends a table or replaces the one
    of the same id, [resetState] puts the default tree back,
    [setVisViewMode] ignores a value outside the three modes, [loadState]
    replaces the tree by a snapshot of the right shape and leaves it alone
    otherwise; section 3: any other action returns the tree unchanged. *)
Definition spec_reducer (s : value) (a : action) : value :=
  match s with
  | JObject ps =>
      match a with
      | loadTable t =>
          match get_prop ps (str "tables") with
          | JArray ts =>
              JObject (JSON.CreateDataProperty ps (str "tables") (JArray (put_table t ts)))
          | _ => s
          end
      | resetState => initialState
      | setVisViewMode m =>
          if is_view_mode m
          then JObject (JSON.CreateDataProperty ps (str "visViewMode") (JString m))
          else s
      | loadState snapshot => if valid_state snapshot then snapshot else s
      | fetchFieldSemanticType _ | fetchAvailableModels => s
      end
  | _ => s
  end.

(** ** Values that JSON text denotes *)

Fixpoint distinct_keys (ks : list jsstring) : bool :=
  match ks with
  | [] => true
  | k :: r => negb (existsb (fun k' => jsstring_eqb k' k) r) && distinct_keys r
  end.

(** Keys in property-enumeration order: array indices first, ascending.
    [lo] is the last index met and [plain] tells whether a key that is not
    an index was met. *)
Fixpoint ordered_keys (lo : option N) (plain : bool) (ks : list jsstring) : bool :=
  match ks with
  | [] => true
  | k :: r =>
      match JSON.array_index k with
      | Some i =>
          negb plain && match lo with Some j => j <? i | None => true end
          && ordered_keys (Some i) false r
      | None => ordered_keys lo true r
      end
  end.

(** The invariants of the representation: numbers in canonical form and
    objects listing distinct keys in enumeration order. *)
Fixpoint well_formed (v : value) : bool :=
  match v with
  | JNumber x => canonical x
  | JArray l => forallb well_formed l
  | JObject ps =>
      distinct_keys (map fst ps) && ordered_keys None false (map fst ps)
      && forallb (fun kv => well_formed (snd kv)) ps
  | _ => true
  end.

(** A value JSON text can denote: it holds no [undefined], no NaN, no
    infinity and no negative zero. *)
Fixpoint json_value (v : value) : bool :=
  match v with
  | JUndefined => false
  | JNumber (Finite neg s _) => match s with [] => negb neg | _ => true end
  | JNumber _ => false
  | JArray l => forallb json_value l
  | JObject ps => forallb (fun kv => json_value (snd kv)) ps
  | _ => true
  end.

(** Number of calls the parser spends on a value. *)
Fixpoint size (v : value) : nat :=
  match v with
  | JArray l => S (fold_right (fun e n => S (size e + n)) O l)
  | JObject ps => S (fold_right (fun kv n => S (size (snd kv) + n)) O ps)
  | _ => 1
  end.

(** ** Notions the properties use *)

(** The world after a computation. *)
Definition after {A} (m : M A) (w : World) : World := snd (m w).

(** The actions [dispatch] received between two worlds. *)
Definition dispatched_since (w w' : World) : list action :=
  skipn (List.length (dispatched w)) (dispatched w').

(** [MessageSnackbar] is rendered without props: a notice reaches the user
    through the store only, so surfacing one takes a dispatch. *)
Definition notice_surfaced (w w' : World) : Prop :=
  dispatched_since w w' <> [].

(** What the host does between mount and teardown and after it: it builds
    and registers objects of its own, registers or removes them again, and
    raises events.  The object [AppFC] builds is held by the effect's
    closure only, so the host names objects of its own. *)
Inductive host_action :=
| HostNew (loadData setAppConfig : bool)
| HostSubscribe (sub : nat)
| HostUnsubscribe (sub : nat)
| HostDeliver (ev : bridge_event).

Definition host_owned (w : World) (sub : nat) : bool :=
  match nth_error (objects w) sub with
  | Some o => negb (of_app o)
  | None => false
  end.

Section Host.
Variable reducer : value -> action -> value.
Variable assignAppConfig : value -> value -> value.

Definition host (h : host_action) : M unit :=
  match h with
  | HostNew l s => fun w =>
      subscribe (List.length (objects w))
        (set_bridge
           (objects w ++ [{| has_loadData := l; has_setAppConfig := s;
                             of_app := false |}])
           (registry w) (bridge_calls w) (cleanup w) w)
  | HostSubscribe sub => fun w =>
      if host_owned w sub then subscribe sub w else (Normal tt, w)
  | HostUnsubscribe sub => fun w =>
      if host_owned w sub then unsubscribe sub w else (Normal tt, w)
  | HostDeliver ev => deliver reducer assignAppConfig ev
  end.

(** Each host action runs on its own: one that throws does not stop
    the next. *)
Definition host_run (hs : list host_action) (w : World) : World :=
  fold_left (fun w h => after (host h) w) hs w.
End Host.

(** Where a number literal may stop: at the end of the text or before a
    character that cannot continue it. *)
Definition number_end (rest : jsstring) : bool :=
  match rest with
  | [] => true
  | c :: _ =>
      match unit_digit c with
      | Some _ => false
      | None => negb ((c =? 46) || (c =? 101) || (c =? 69))
      end
  end.

(** What follows a value inside the text of an enclosing value. *)
Definition value_end (rest : jsstring) : bool :=
  match rest with
  | [] => true
  | c :: _ => (c =? 44) || (c =? 93) || (c =? 125)
  end.

(** The characters a value's text starts with. *)
Definition value_start (c : N) : bool :=
  (c =? 123) || (c =? 91) || (c =? 34) || (c =? 116) || (c =? 102)
  || (c =? 110) || (c =? 45)
  || match unit_digit c with Some _ => true | None => false end.

(** The text JSON.stringify writes for an element of an array. *)
Definition text_of (v : value) : jsstring :=
  match JSON.SerializeJSONProperty v with
  | Some t => t
  | None => str "null"
  end.

(** The text it writes for a property whose value has a text. *)
Definition member_text (kv : jsstring * value) : jsstring :=
  JSON.QuoteJSONString (fst kv) ++ str ":" ++ text_of (snd kv).

(** The text of a value, followed by anything that may follow a value,
    reads back as the value. *)
Definition reads_back (v : value) : Prop :=
  well_formed v = true -> json_value v = true ->
  forall fuel rest,
    (size v <= fuel)%nat -> value_end rest = true ->
    JSON.parse_value fuel (text_of v ++ rest) = JSON.POk v rest.

(** An action whose payload is a value JSON text denotes. *)
Definition json_payload (a : action) : bool :=
  match a with
  | loadState v | loadTable v | fetchFieldSemanticType v =>
      well_formed v && json_value v
  | setVisViewMode _ | resetState | fetchAvailableModels => true
  end.

(** The bridge's share of the world. *)
Definition bridge_part (w : World) :=
  (objects w, registry w, bridge_calls w, cleanup w).

(** What stays true once the object [sub] of the app has been removed:
    it is still the app's, and it is not registered. *)
Definition removed (sub : nat) (w : World) : Prop :=
  (exists o, nth_error (objects w) sub = Some o /\ of_app o = true)
  /\ ~ In sub (registry w).

(** ** Sample inputs *)

Definition sample_config : value :=
  JObject [(str "popupConfig", JObject [(str "label", JString (str "open"))])].

Definition empty_world : World :=
  {| state := initialState; dispatched := []; userInfo := None;
     popupConfig := JObject []; appConfig := JObject []; console := [];
     inputValue := Some (str "C:\fakepath\session.dfstate");
     objects := []; registry := [];
     bridge_calls := []; invocations := []; cleanup := None |}.

(** A session file cut short: the first twelve code units of the default
    state's snapshot. *)
Definition truncated_snapshot : jsstring :=
  firstn 12 (match JSON.stringify initialState with Some t => t | None => [] end).

(** A reply of the auth endpoint: one signed-in identity. *)
Definition auth_reply : value :=
  JArray [JObject [(str "user_id", JString (str "ada@example.org"));
                   (str "user_claims",
                    JArray [JObject [(str "typ", JString (str "email"));
                                     (str "val", JString (str "ada@example.org"))];
                            JObject [(str "typ", JString (str "name"));
                                     (str "val", JString (str "Ada"))]])]].

Definition auth_body : jsstring :=
  match JSON.stringify auth_reply with Some t => t | None => [] end.

(** A table the host may hand over: one of its cells did not compute. *)
Definition nan_table : value :=
  JObject [(str "id", JString (str "t1"));
           (str "names", JArray [JString (str "year"); JString (str "ratio")]);
           (str "rows",
            JArray [JObject [(str "year", num [D2; D0; D2; D4] 4);
                             (str "ratio", JNumber NaN)]])].

(** The same table with the ratio computed (0.25). *)
Definition sample_table : value :=
  JObject [(str "id", JString (str "t1"));
           (str "names", JArray [JString (str "year"); JString (str "ratio")]);
           (str "rows",
            JArray [JObject [(str "year", num [D2; D0; D2; D4] 4);
                             (str "ratio", num [D2; D5] 0)]])].

Definition world_with (s : value) : World :=
  {| state := s; dispatched := []; userInfo := None;
     popupConfig := JObject []; appConfig := JObject []; console := [];
     inputValue := Some []; objects := []; registry := [];
     bridge_calls := []; invocations := []; cleanup := None |}.

(** ** More of App.tsx *)

(** *** ExportStateButton: the click *)

(** What [download] hands to the browser. *)
Record download := {
  content : jsstring;
  fileName : jsstring;
  contentType : jsstring
}.

(** The text of a Blob made of one part: a string as it is, [undefined] as
    the text "undefined". *)
Definition blob_text (part : option jsstring) : jsstring :=
  match part with
  | Some t => t
  | None => str "undefined"
  end.

(** The [onClick] of the export button; [iso] is what
    [new Date().toISOString()] returns at the click. *)
Definition export_click (iso : jsstring) (w : World) : download :=
  {| content := blob_text (fullStateJson w);
     fileName := str "data-formulator." ++ iso ++ str ".dfstate";
     contentType := str "text/plain" |}.

(** The value the text of [v] denotes: what JSON.stringify cannot write is
    written as [null] (or left out, for a property), and -0 as 0. *)
Fixpoint as_json (v : value) : value :=
  match v with
  | JUndefined => JNull
  | JNumber NaN | JNumber (Infinity _) => JNull
  | JNumber (Finite _ [] n) => JNumber (Finite false [] n)
  | JArray l => JArray (map as_json l)
  | JObject ps =>
      JObject (flat_map (fun kv => match snd kv with
                                   | JUndefined => []
                                   | _ => [(fst kv, as_json (snd kv))]
                                   end) ps)
  | _ => v
  end.

(** The actions the import button dispatches for the files whose reads
    settled, and the number of messages it writes. *)
Definition loaded (fs : list file) : list action :=
  flat_map (fun f => match f with
                     | File (Some text) =>
                         match JSON.parse text with
                         | Some v => [loadState v]
                         | None => []
                         end
                     | File None => []
                     end) fs.

Definition failures (fs : list file) : nat :=
  List.length (filter (fun f => match f with
                                | File (Some text) =>
                                    match JSON.parse text with
                                    | Some _ => false
                                    | None => true
                                    end
                                | File None => false
                                end) fs).

(** *** stringAvatar on strings *)

(** What a word contributes to the initials: its first code unit, or the
    text of [undefined] when it is empty. *)
Definition initial (w : jsstring) : jsstring :=
  match w with
  | c :: _ => [c]
  | [] => str "undefined"
  end.

(** *** The auth probe on a well-shaped reply *)

(** A claim whose [typ] compares with a string without a conversion that
    could throw: an object whose [typ] is absent or a primitive. *)
Definition plain_claim (item : value) : bool :=
  match item with
  | JObject qs =>
      match get_prop qs (str "typ") with
      | JArray _ | JObject _ => false
      | _ => true
      end
  | _ => false
  end.

Definition is_name_claim (item : value) : bool :=
  match item with
  | JObject qs =>
      match get_prop qs (str "typ") with
      | JString t => jsstring_eqb t (str "name")
      | _ => false
      end
  | _ => false
  end.

(** The display name the claims give: the [val] of the first claim of type
    name when it is truthy, the empty string otherwise. *)
Definition claimed_name (claims : list value) : value :=
  match find is_name_claim claims with
  | Some (JObject qs) =>
      if truthy (get_prop qs (str "val")) then get_prop qs (str "val")
      else JString []
  | _ => JString []
  end.

(** *** ResetDialog *)

Inductive dialog_event :=
| ClickResetSession   (* the button that is always shown *)
| ClickConfirm        (* "reset session" inside the dialog *)
| ClickCancel         (* "cancel" inside the dialog *)
| CloseDialog.        (* the dialog's onClose *)

Section ResetDialog.
Variable reducer : value -> action -> value.

(** One event of the component; [open] is its state.  The dialog's
    content, with its two buttons, is rendered only while [open] holds. *)
Definition ResetDialog_event (ev : dialog_event) (open : bool) : M bool :=
  match ev with
  | ClickResetSession => ret true
  | ClickConfirm =>
      if open then dispatch reducer resetState ;;; ret false else ret open
  | ClickCancel => ret false
  | CloseDialog => ret false
  end.

Fixpoint ResetDialog_run (evs : list dialog_event) (open : bool) : M bool :=
  match evs with
  | [] => ret open
  | ev :: r => o <- ResetDialog_event ev open ;; ResetDialog_run r o
  end.
End ResetDialog.

Definition is_open_click (ev : dialog_event) : bool :=
  match ev with ClickResetSession => true | _ => false end.

Definition is_confirm (ev : dialog_event) : bool :=
  match ev with ClickConfirm => true | _ => false end.

(** *** What JSON.parse returns *)

(** A value without [undefined], NaN and the infinities. *)
Fixpoint finite_value (v : value) : bool :=
  match v with
  | JUndefined => false
  | JNumber x => is_finite x
  | JArray l => forallb finite_value l
  | JObject ps => forallb (fun kv => finite_value (snd kv)) ps
  | _ => true
  end.

(** *** Well-formed UTF-16 *)

(** Every surrogate of the string is half of a pair: a high one is followed
    by a low one, and a low one follows a high one. *)
Fixpoint well_paired (s : jsstring) : bool :=
  match s with
  | [] => true
  | c :: r =>
      if JSON.is_high_surrogate c then
        match r with
        | c2 :: r2 => JSON.is_low_surrogate c2 && well_paired r2
        | [] => false
        end
      else negb (JSON.is_low_surrogate c) && well_paired r
  end.

(** A code unit below the surrogates. *)
Definition plain_unit (c : N) : bool := c <? 55296.

(** A state tree one of whose strings ends in half a surrogate pair. *)
Definition lone_surrogate_state : value :=
  JObject [(str "tables", JArray [JObject [(str "id", JString [116; 55357])]])].

(** * Properties *)

(** ** Strings *)

Lemma jsstring_eqb_eq (a b : jsstring) : jsstring_eqb a b = true <-> a = b.
Proof.
  revert b; induction a as [|x a IH]; intros [|y b]; simpl;
    try (split; [discriminate | discriminate]); try tauto.
  rewrite andb_true_iff, N.eqb_eq, IH.
  split; [intros [-> ->]; reflexivity | intros H; inversion H; auto].
Qed.

Lemma jsstring_eqb_refl (a : jsstring) : jsstring_eqb a a = true.
Proof. apply jsstring_eqb_eq; reflexivity. Qed.

Lemma jsstring_eqb_neq (a b : jsstring) : jsstring_eqb a b = false <-> a <> b.
Proof.
  rewrite <- jsstring_eqb_eq. destruct (jsstring_eqb a b); split; congruence.
Qed.

(** ** The store *)

Lemma dispatch_spec reducer a w :
  dispatch reducer a w = (Normal tt, set_state (reducer (state w) a) a w).
Proof. reflexivity. Qed.

(** ** The embedding callbacks *)

(** C3: the [loadData] callback ends normally, hands [loadTable(table)] and
    then [fetchFieldSemanticType(table)] to [dispatch], in that order; the
    state tree afterwards is what the reducer made of these two actions, and
    nothing else of the world changes. *)
Theorem loadData_callback_dispatches reducer table w :
  let w' := after (loadData_callback reducer table) w in
  fst (loadData_callback reducer table w) = Normal tt
  /\ dispatched w' = dispatched w ++ [loadTable table; fetchFieldSemanticType table]
  /\ state w' = reducer (reducer (state w) (loadTable table))
                        (fetchFieldSemanticType table)
  /\ w' = after (dispatch reducer (fetchFieldSemanticType table))
            (after (dispatch reducer (loadTable table)) w)
  /\ (userInfo w', popupConfig w', appConfig w', console w', inputValue w')
     = (userInfo w, popupConfig w, appConfig w, console w, inputValue w)
  /\ (objects w', registry w', bridge_calls w', invocations w', cleanup w')
     = (objects w, registry w, bridge_calls w, invocations w, cleanup w).
Proof.
  unfold after, loadData_callback, bind, dispatch; simpl.
  repeat split. now rewrite <- app_assoc.
Qed.

(** C7: when the configuration has a [popupConfig] (a truthy value, as
    every object is), the [setAppConfig] callback hands the configuration to
    [assignAppConfig] and the stored [popupConfig] becomes the one given. *)
Theorem setAppConfig_stores_popupConfig assignAppConfig config pc w :
  Get config (str "popupConfig") = Normal pc ->
  truthy pc = true ->
  let w' := after (setAppConfig_callback assignAppConfig config) w in
  fst (setAppConfig_callback assignAppConfig config w) = Normal tt
  /\ appConfig w' = assignAppConfig config (appConfig w)
  /\ popupConfig w' = pc
  /\ (state w', dispatched w') = (state w, dispatched w).
Proof.
  intros Hget Htruthy.
  unfold after, setAppConfig_callback, bind, lift; simpl.
  rewrite Hget, Htruthy; simpl. auto.
Qed.

Lemma setAppConfig_stores_popupConfig_witness :
  popupConfig (after (setAppConfig_callback (fun c old => c) sample_config) empty_world)
  = JObject [(str "label", JString (str "open"))].
Proof.
  apply (setAppConfig_stores_popupConfig (fun c old => c) sample_config
           (JObject [(str "label", JString (str "open"))]) empty_world);
    reflexivity.
Defined.

(** C8: when the configuration has no [popupConfig], or a falsy one, the
    stored [popupConfig] is the one stored before; the configuration is
    still handed to [assignAppConfig]. *)
Theorem setAppConfig_keeps_popupConfig assignAppConfig config pc w :
  Get config (str "popupConfig") = Normal pc ->
  truthy pc = false ->
  let w' := after (setAppConfig_callback assignAppConfig config) w in
  fst (setAppConfig_callback assignAppConfig config w) = Normal tt
  /\ popupConfig w' = popupConfig w
  /\ appConfig w' = assignAppConfig config (appConfig w).
Proof.
  intros Hget Hfalsy.
  unfold after, setAppConfig_callback, bind, lift; simpl.
  rewrite Hget, Hfalsy; simpl. auto.
Qed.

Lemma setAppConfig_keeps_popupConfig_witness :
  popupConfig (after (setAppConfig_callback (fun c old => c)
                        (JObject [(str "serverUrl", JString (str "/"))]))
                 empty_world)
  = JObject [].
Proof.
  apply (setAppConfig_keeps_popupConfig (fun c old => c)
           (JObject [(str "serverUrl", JString (str "/"))]) JUndefined empty_world);
    reflexivity.
Defined.

(** ** The view-mode toggle *)

Lemma is_view_mode_iff m :
  is_view_mode m = true
  <-> m = str "gallery" \/ m = str "carousel" \/ m = str "database".
Proof.
  unfold is_view_mode. rewrite !orb_true_iff, !jsstring_eqb_eq. tauto.
Qed.

(** C4: a change to "gallery", "carousel" or "database" dispatches
    [setVisViewMode] with that value and nothing else; any other value, and
    null, dispatches nothing and leaves the world, hence the view mode, as it
    was; in both cases the handler ends normally. *)
Theorem viewMode_onChange_validates reducer newViewMode w :
  fst (viewMode_onChange reducer newViewMode w) = Normal tt
  /\ (forall m, newViewMode = Some m ->
        m = str "gallery" \/ m = str "carousel" \/ m = str "database" ->
        viewMode_onChange reducer newViewMode w
          = dispatch reducer (setVisViewMode m) w
        /\ dispatched_since w (after (viewMode_onChange reducer newViewMode) w)
           = [setVisViewMode m])
  /\ ((forall m, newViewMode = Some m ->
         m <> str "gallery" /\ m <> str "carousel" /\ m <> str "database") ->
      after (viewMode_onChange reducer newViewMode) w = w
      /\ dispatched_since w (after (viewMode_onChange reducer newViewMode) w) = []).
Proof.
  unfold viewMode_onChange, after, dispatched_since.
  split; [|split].
  - destruct newViewMode as [m|]; [destruct (is_view_mode m)|]; reflexivity.
  - intros m -> Hm. apply is_view_mode_iff in Hm. rewrite Hm.
    split; [reflexivity|]. simpl.
    rewrite skipn_app, skipn_all, Nat.sub_diag. reflexivity.
  - intros H. destruct newViewMode as [m|].
    + destruct (is_view_mode m) eqn:E.
      * apply is_view_mode_iff in E. destruct (H m eq_refl) as (? & ? & ?).
        destruct E as [E|[E|E]]; contradiction.
      * simpl. now rewrite skipn_all.
    + simpl. now rewrite skipn_all.
Qed.

Lemma viewMode_onChange_validates_witness :
  dispatched_since empty_world
    (after (viewMode_onChange spec_reducer (Some (str "database"))) empty_world)
  = [setVisViewMode (str "database")]
  /\ after (viewMode_onChange spec_reducer (Some (str "table"))) empty_world
     = empty_world.
Proof.
  split.
  - apply (proj1 (proj2 (viewMode_onChange_validates spec_reducer
                           (Some (str "database")) empty_world))
             (str "database") eq_refl).
    right; right; reflexivity.
  - apply (proj2 (proj2 (viewMode_onChange_validates spec_reducer
                           (Some (str "table")) empty_world))).
    intros m H; injection H as <-. repeat split; discriminate.
Defined.

(** ** The import button *)

Lemma on_file_text_frame reducer text w :
  let w' := after (on_file_text reducer text) w in
  fst (on_file_text reducer text w) = Normal tt
  /\ inputValue w' = inputValue w.
Proof.
  unfold after, on_file_text, catch.
  destruct (JSON.parse text); simpl; auto.
Qed.

Lemma settle_reads_frame reducer fs w :
  fst (settle_reads reducer fs w) = Normal tt
  /\ inputValue (after (settle_reads reducer fs) w) = inputValue w.
Proof.
  revert w; induction fs as [|[[text|]] fs IH]; intros w; simpl; auto.
  unfold after, bind in *.
  destruct (on_file_text_frame reducer text w) as [Hn Hi].
  unfold after in Hi.
  destruct (on_file_text reducer text w) as [r w1]; simpl in *; subst r.
  destruct (IH w1) as [H1 H2]. rewrite H1, H2. auto.
Qed.

(** C9: whatever the selection was (no file list, no file, a file that
    parses or one that does not), once [handleFileUpload] has returned the
    value of the file input the ref points to is the empty string, and it
    still is after the reads have settled. *)
Theorem handleFileUpload_resets_input reducer files v w :
  inputValue w = Some v ->
  inputValue (after (handleFileUpload files) w) = Some []
  /\ inputValue (after (file_change reducer files) w) = Some [].
Proof.
  intros Hv.
  assert (H : inputValue (after (handleFileUpload files) w) = Some []).
  { unfold after, handleFileUpload; simpl. rewrite Hv. reflexivity. }
  split; [exact H|].
  unfold after, file_change, bind in *.
  destruct (handleFileUpload files w) as [[pending|e] w1] eqn:E; simpl in *.
  - destruct (settle_reads_frame reducer pending w1) as [_ Hi].
    unfold after in Hi. rewrite Hi. exact H.
  - exact H.
Qed.

Lemma handleFileUpload_resets_input_witness :
  inputValue (after (file_change spec_reducer (Some [File (Some truncated_snapshot)]))
                empty_world)
  = Some [].
Proof.
  apply (handleFileUpload_resets_input spec_reducer
           (Some [File (Some truncated_snapshot)])
           (str "C:\fakepath\session.dfstate") empty_world).
  reflexivity.
Defined.

(** C2, as the code has it: when the text does not parse, the callback ends
    normally, nothing is dispatched (no [loadState] in particular), the state
    tree is the one before, and the failure is written to the console. *)
Theorem import_parse_failure_keeps_state reducer text w :
  JSON.parse text = None ->
  let w' := after (on_file_text reducer text) w in
  fst (on_file_text reducer text w) = Normal tt
  /\ state w' = state w
  /\ dispatched w' = dispatched w
  /\ console w' = console w ++ [str "Failed to parse state file:"]
  /\ (userInfo w', popupConfig w', appConfig w', inputValue w')
     = (userInfo w, popupConfig w, appConfig w, inputValue w).
Proof.
  intros H. unfold after, on_file_text, catch. rewrite H. simpl. auto.
Qed.

Lemma import_parse_failure_keeps_state_witness :
  JSON.parse truncated_snapshot = None
  /\ state (after (on_file_text spec_reducer truncated_snapshot) empty_world)
     = initialState.
Proof.
  split; [vm_compute; reflexivity|].
  apply (import_parse_failure_keeps_state spec_reducer truncated_snapshot empty_world).
  vm_compute; reflexivity.
Defined.

(** Counterexample to C2 as worded: on a text that does not parse no notice
    is surfaced, because nothing at all is dispatched. *)
Lemma import_parse_failure_no_notice :
  ~ (forall reducer text w,
       JSON.parse text = None ->
       let w' := after (on_file_text reducer text) w in
       state w' = state w /\ notice_surfaced w w').
Proof.
  intros H.
  destruct (H spec_reducer truncated_snapshot empty_world) as [_ Hn].
  - vm_compute; reflexivity.
  - apply Hn. vm_compute. reflexivity.
Qed.

(** ** stringAvatar *)

Lemma split_on_nonempty sep s : split_on sep s <> [].
Proof.
  destruct s as [|c r]; simpl; [discriminate|].
  destruct (c =? sep); [discriminate|].
  destruct (split_on sep r); discriminate.
Qed.

Lemma array_index_zero : JSON.array_index (str "0") = Some 0.
Proof. reflexivity. Qed.

Lemma Get_string_zero s : exists v, Get (JString s) (str "0") = Normal v
                                   /\ exists t, ToString v = Normal t.
Proof.
  unfold Get. rewrite array_index_zero. simpl.
  destruct s as [|c r]; simpl; eexists; split; try reflexivity; eexists; reflexivity.
Qed.

Lemma initials_of_string s : exists i, initials (JString s) = Normal (JString i).
Proof.
  unfold initials, call_split.
  pose proof (split_on_nonempty 32 s) as Hne.
  destruct (split_on 32 s) as [|w0 ws] eqn:E; [contradiction|].
  set (l := map JString (w0 :: ws)).
  assert (Hall : forall n, (n < List.length l)%nat ->
                           exists w', nth n l JUndefined = JString w').
  { intros n Hn. subst l.
    rewrite length_map in Hn.
    rewrite (nth_indep _ JUndefined (JString [])) by (rewrite length_map; exact Hn).
    rewrite (map_nth JString). eauto. }
  assert (Hpos : (0 < List.length l)%nat) by (subst l; simpl; lia).
  destruct (Hall 0%nat Hpos) as (a & ->).
  destruct (Get_string_zero a) as (v & -> & t & ->).
  destruct (1 <? List.length l)%nat; [|eauto].
  destruct (Hall (List.length l - 1)%nat ltac:(lia)) as (b & ->).
  destruct (Get_string_zero b) as (v' & -> & t' & ->). eauto.
Qed.

Lemma fallback_normal nm : exists d, fallback nm = Normal d.
Proof.
  unfold fallback. destruct (truthy nm) eqn:E; [|eauto].
  destruct nm; simpl in *; try discriminate; eauto.
Qed.

(** C10: [stringAvatar] returns for every argument, a string (the empty
    one and a single word included) or anything else; for a string the
    initials are computed without an exception, and when their computation
    throws the display name is the fallback of the [catch] block. *)
Theorem stringAvatar_never_throws :
  (forall nm, exists d,
      stringAvatar nm = Normal (avatar d)
      /\ match initials nm with
         | Normal i => d = i
         | Throw _ => fallback nm = Normal d
         end)
  /\ (forall s, exists i,
        initials (JString s) = Normal (JString i)
        /\ stringAvatar (JString s) = Normal (avatar (JString i)))
  /\ stringAvatar JUndefined = Normal (avatar (JString (str "?")))
  /\ stringAvatar (JString []) = Normal (avatar (JString (str "undefined")))
  /\ stringAvatar (JString (str "Ada")) = Normal (avatar (JString (str "A")))
  /\ stringAvatar (JString (str "Ada Lovelace")) = Normal (avatar (JString (str "AL"))).
Proof.
  split; [|split; [|repeat split]].
  - intros nm. unfold stringAvatar.
    destruct (initials nm) as [i|e]; [eauto|].
    destruct (fallback_normal nm) as (d & Hd). rewrite Hd. eauto.
  - intros s. destruct (initials_of_string s) as (i & Hi).
    exists i. split; [exact Hi|]. unfold stringAvatar. rewrite Hi. reflexivity.
Qed.

(** ** The auth probe *)

Lemma auth_then_cases result w :
  (auth_then result w = (Normal tt, w)
   /\ forall a r, result <> JArray (a :: r))
  \/ (exists e, auth_then result w = (Throw e, w))
  \/ (exists authInfo rest claims found val uid,
        result = JArray (authInfo :: rest)
        /\ Get authInfo (str "user_claims") = Normal claims
        /\ call_find claims = Normal found
        /\ match found with
           | JUndefined | JNull => Normal JUndefined
           | _ => Get found (str "val")
           end = Normal val
        /\ Get authInfo (str "user_id") = Normal uid
        /\ auth_then result w
           = setUserInfo {| name := if truthy val then val else JString [];
                            userId := uid |} w).
Proof.
  destruct result as [| | | | |l|]; try (left; split; [reflexivity|discriminate]).
  destruct l as [|authInfo rest]; [left; split; [reflexivity|discriminate]|].
  right. unfold auth_then, bind, lift.
  destruct (Get authInfo (str "user_claims")) as [claims|e] eqn:E1; [|left; eauto].
  destruct (call_find claims) as [found|e] eqn:E2; [|left; eauto].
  destruct (match found with
            | JUndefined | JNull => Normal JUndefined
            | _ => Get found (str "val")
            end) as [val|e] eqn:E3; [|left; eauto].
  destruct (Get authInfo (str "user_id")) as [uid|e] eqn:E4; [|left; eauto].
  right. exists authInfo, rest, claims, found, val, uid. auto 10.
Qed.

(** C6: the probe always ends normally; it leaves the world as it was, the
    identity included, or sets the identity from the first element of a
    non-empty array reply (the user id is its [user_id], the name the [val]
    of its first claim of type name, the empty string without one); after a
    network error, a reply that is not JSON, not an array or an empty array,
    the world is as it was. *)
Theorem auth_probe_identity reply w :
  fst (auth_probe reply w) = Normal tt
  /\ (after (auth_probe reply) w = w
      \/ exists body authInfo rest claims found val uid,
           reply = Response body
           /\ JSON.parse body = Some (JArray (authInfo :: rest))
           /\ Get authInfo (str "user_claims") = Normal claims
           /\ call_find claims = Normal found
           /\ match found with
              | JUndefined | JNull => Normal JUndefined
              | _ => Get found (str "val")
              end = Normal val
           /\ Get authInfo (str "user_id") = Normal uid
           /\ after (auth_probe reply) w
              = after (setUserInfo {| name := if truthy val then val else JString [];
                                      userId := uid |}) w)
  /\ (reply = NetworkError -> after (auth_probe reply) w = w)
  /\ (forall body, reply = Response body -> JSON.parse body = None ->
        after (auth_probe reply) w = w)
  /\ (forall body result, reply = Response body -> JSON.parse body = Some result ->
        (forall a r, result <> JArray (a :: r)) ->
        after (auth_probe reply) w = w).
Proof.
  unfold after, auth_probe, catch, bind, fetch, response_json.
  destruct reply as [|body]; simpl.
  - repeat split; auto; intros; discriminate.
  - destruct (JSON.parse body) as [result|] eqn:Hp; simpl.
    + destruct (auth_then_cases result w)
        as [[Hn Hna]|[[e He]|(authInfo & rest & claims & found & val & uid
                              & -> & H1 & H2 & H3 & H4 & H5)]].
      * rewrite Hn; simpl. repeat split; auto; intros; discriminate.
      * rewrite He; simpl. repeat split; auto; intros; discriminate.
      * rewrite H5; simpl. split; [reflexivity|]. split.
        { right. exists body, authInfo, rest, claims, found, val, uid. auto 10. }
        split; [discriminate|].
        split; [intros b Hb Hn0; injection Hb as <-; congruence|].
        intros b r Hb Hr Hna. injection Hb as <-. rewrite Hp in Hr. injection Hr as <-.
        exfalso. exact (Hna authInfo rest eq_refl).
    + repeat split; auto; intros; discriminate.
Qed.

Lemma auth_probe_identity_witness :
  after (auth_probe NetworkError) empty_world = empty_world
  /\ after (auth_probe (Response truncated_snapshot)) empty_world = empty_world
  /\ after (auth_probe (Response (str "[]"))) empty_world = empty_world
  /\ userInfo (after (auth_probe (Response auth_body)) empty_world)
     = Some {| name := JString (str "Ada");
               userId := JString (str "ada@example.org") |}.
Proof.
  split; [|split; [|split]].
  - apply (proj1 (proj2 (proj2 (auth_probe_identity NetworkError empty_world)))).
    reflexivity.
  - apply (proj1 (proj2 (proj2 (proj2
             (auth_probe_identity (Response truncated_snapshot) empty_world))))
             truncated_snapshot eq_refl).
    vm_compute; reflexivity.
  - apply (proj2 (proj2 (proj2 (proj2
             (auth_probe_identity (Response (str "[]")) empty_world))))
             (str "[]") (JArray []) eq_refl).
    + vm_compute; reflexivity.
    + discriminate.
  - vm_compute; reflexivity.
Defined.

(** ** The embedding subscription *)

Lemma loadData_callback_frame reducer table w :
  bridge_part (after (loadData_callback reducer table) w) = bridge_part w
  /\ invocations (after (loadData_callback reducer table) w) = invocations w.
Proof. split; reflexivity. Qed.

Lemma setAppConfig_callback_frame assignAppConfig config w :
  bridge_part (after (setAppConfig_callback assignAppConfig config) w) = bridge_part w
  /\ invocations (after (setAppConfig_callback assignAppConfig config) w)
     = invocations w.
Proof.
  unfold after, setAppConfig_callback, bind, lift; simpl.
  destruct (Get config (str "popupConfig")) as [pc|e]; simpl;
    [destruct (truthy pc)|]; split; reflexivity.
Qed.

Lemma invoke_frame reducer assignAppConfig sub ev w :
  let w' := after (invoke reducer assignAppConfig sub ev) w in
  bridge_part w' = bridge_part w
  /\ exists l, invocations w' = invocations w ++ l
               /\ forall x, In x l -> fst x = sub.
Proof.
  assert (Hnil : bridge_part w = bridge_part w
                 /\ exists l, invocations w = invocations w ++ l
                              /\ forall x, In x l -> fst x = sub).
  { split; [reflexivity|]. exists []. rewrite app_nil_r. split; [reflexivity|].
    intros x []. }
  unfold after, invoke.
  destruct (nth_error (objects w) sub) as [o|]; [|exact Hnil].
  destruct ev as [table|config].
  - destruct (has_loadData o); [|exact Hnil].
    unfold bind, log_invocation; simpl.
    destruct (of_app o); simpl.
    + split; [reflexivity|]. exists [(sub, LoadData table)].
      split; [reflexivity|]. intros x [<-|[]]; reflexivity.
    + split; [reflexivity|]. exists [(sub, LoadData table)].
      split; [reflexivity|]. intros x [<-|[]]; reflexivity.
  - destruct (has_setAppConfig o); [|exact Hnil].
    destruct (of_app o).
    + unfold bind, log_invocation. cbn beta iota.
      match goal with
      | |- context [setAppConfig_callback assignAppConfig config ?w0] =>
          destruct (setAppConfig_callback_frame assignAppConfig config w0) as [Hb Hi];
          unfold after in Hb, Hi;
          destruct (setAppConfig_callback assignAppConfig config w0) as [r wz]
      end.
      simpl in *. rewrite Hb, Hi.
      split; [reflexivity|]. exists [(sub, SetAppConfig config)].
      split; [reflexivity|]. intros x [<-|[]]; reflexivity.
    + unfold bind, log_invocation. simpl.
      split; [reflexivity|]. exists [(sub, SetAppConfig config)].
      split; [reflexivity|]. intros x [<-|[]]; reflexivity.
Qed.

Lemma invoke_all_frame reducer assignAppConfig subs ev w :
  let w' := after (invoke_all reducer assignAppConfig subs ev) w in
  bridge_part w' = bridge_part w
  /\ exists l, invocations w' = invocations w ++ l
               /\ forall x, In x l -> In (fst x) subs.
Proof.
  revert w; induction subs as [|sub subs IH]; intros w; simpl.
  - split; [reflexivity|]. exists []. rewrite app_nil_r.
    split; [reflexivity|]. intros x [].
  - destruct (invoke_frame reducer assignAppConfig sub ev w) as [Hb (l1 & Hi & Hl1)].
    unfold after, bind in *.
    destruct (invoke reducer assignAppConfig sub ev w) as [[[]|e] w1]; simpl in *.
    + destruct (IH w1) as [Hb2 (l2 & Hi2 & Hl2)].
      rewrite Hb2, Hb, Hi2, Hi. split; [reflexivity|].
      exists (l1 ++ l2). rewrite app_assoc. split; [reflexivity|].
      intros x Hx. apply in_app_or in Hx. destruct Hx as [Hx|Hx]; [left; symmetry|right]; auto.
    + split; [exact Hb|]. exists l1. split; [exact Hi|]. intros x Hx. left. symmetry. auto.
Qed.

Lemma host_keeps_object reducer assignAppConfig h w sub o :
  nth_error (objects w) sub = Some o ->
  nth_error (objects (after (host reducer assignAppConfig h) w)) sub = Some o
  /\ cleanup (after (host reducer assignAppConfig h) w) = cleanup w.
Proof.
  intros Ho. unfold after. destruct h as [l s|j|j|ev]; simpl.
  - split; [|reflexivity]. rewrite nth_error_app1; [exact Ho|].
    apply nth_error_Some. congruence.
  - destruct (host_owned w j); simpl; auto.
  - destruct (host_owned w j); simpl; auto.
  - unfold deliver.
    destruct (invoke_all_frame reducer assignAppConfig (registry w) ev w) as [Hb _].
    unfold after, bridge_part in Hb. injection Hb as H1 H2 H3 H4.
    rewrite H1, H4. auto.
Qed.

Lemma host_keeps_removed reducer assignAppConfig h w sub :
  removed sub w ->
  removed sub (after (host reducer assignAppConfig h) w)
  /\ exists l, invocations (after (host reducer assignAppConfig h) w)
               = invocations w ++ l
               /\ forall ev, ~ In (sub, ev) l.
Proof.
  intros [(o & Ho & Happ) Hnot].
  destruct (host_keeps_object reducer assignAppConfig h w sub o Ho) as [Ho' _].
  assert (Hnone : exists l : list (nat * bridge_event),
             invocations w = invocations w ++ l /\ forall ev, ~ In (sub, ev) l).
  { exists []. rewrite app_nil_r. split; [reflexivity|]. intros ev []. }
  split; [split; [eauto|]|]; unfold after in *; destruct h as [l s|j|j|ev]; simpl in *.
  - assert (Hlt : (sub < List.length (objects w))%nat)
      by (apply nth_error_Some; congruence).
    destruct (existsb _ (registry w)); [exact Hnot|].
    intros Hin. apply in_app_or in Hin. destruct Hin as [Hin|[Hin|[]]]; [auto|lia].
  - destruct (host_owned w j) eqn:Hj; simpl; [|exact Hnot].
    destruct (existsb _ (registry w)); [exact Hnot|].
    intros Hin. apply in_app_or in Hin. destruct Hin as [Hin|[Hin|[]]]; [auto|].
    subst j. unfold host_owned in Hj. rewrite Ho, Happ in Hj. discriminate.
  - destruct (host_owned w j) eqn:Hj; simpl; [|exact Hnot].
    intros Hin. apply filter_In in Hin. tauto.
  - unfold deliver.
    destruct (invoke_all_frame reducer assignAppConfig (registry w) ev w) as [Hb _].
    unfold after, bridge_part in Hb. injection Hb as H1 H2 H3 H4.
    rewrite H2. exact Hnot.
  - exact Hnone.
  - destruct (host_owned w j); exact Hnone.
  - destruct (host_owned w j); exact Hnone.
  - unfold deliver.
    destruct (invoke_all_frame reducer assignAppConfig (registry w) ev w)
      as [_ (l & Hi & Hl)].
    exists l. split; [exact Hi|].
    intros ev' Hin. apply Hl in Hin. simpl in Hin. contradiction.
Qed.

Lemma host_run_keeps_object reducer assignAppConfig hs w sub o :
  nth_error (objects w) sub = Some o ->
  nth_error (objects (host_run reducer assignAppConfig hs w)) sub = Some o
  /\ cleanup (host_run reducer assignAppConfig hs w) = cleanup w.
Proof.
  revert w; induction hs as [|h hs IH]; intros w Ho; simpl; [auto|].
  destruct (host_keeps_object reducer assignAppConfig h w sub o Ho) as [Ho' Hc].
  destruct (IH _ Ho') as [H1 H2]. rewrite H1, H2, Hc. auto.
Qed.

Lemma host_run_keeps_removed reducer assignAppConfig hs w sub :
  removed sub w ->
  removed sub (host_run reducer assignAppConfig hs w)
  /\ exists l, invocations (host_run reducer assignAppConfig hs w)
               = invocations w ++ l
               /\ forall ev, ~ In (sub, ev) l.
Proof.
  revert w; induction hs as [|h hs IH]; intros w Hr; simpl.
  - split; [exact Hr|]. exists []. rewrite app_nil_r.
    split; [reflexivity|]. intros ev [].
  - destruct (host_keeps_removed reducer assignAppConfig h w sub Hr)
      as [Hr' (l1 & Hi1 & Hl1)].
    destruct (IH _ Hr') as [Hr'' (l2 & Hi2 & Hl2)].
    split; [exact Hr''|]. exists (l1 ++ l2).
    rewrite Hi2, Hi1, app_assoc. split; [reflexivity|].
    intros ev Hin. apply in_app_or in Hin. destruct Hin as [Hin|Hin].
    + exact (Hl1 ev Hin).
    + exact (Hl2 ev Hin).
Qed.

(** C5: the effect run at mount gives a new object to [subscribe]; whatever
    the host does in between, teardown gives that same object to
    [unsubscribe]; from then on the object is not registered and no event
    the host raises invokes either of its callbacks. *)
Theorem subscription_removed_at_teardown reducer assignAppConfig w before afterwards :
  let sub := List.length (objects w) in
  let w1 := after mount w in
  let w2 := host_run reducer assignAppConfig before w1 in
  let w3 := after unmount w2 in
  let w4 := host_run reducer assignAppConfig afterwards w3 in
  bridge_calls w1 = bridge_calls w ++ [Subscribe sub]
  /\ In sub (registry w1)
  /\ bridge_calls w3 = bridge_calls w2 ++ [Unsubscribe sub]
  /\ ~ In sub (registry w4)
  /\ exists l, invocations w4 = invocations w3 ++ l
               /\ forall ev, ~ In (sub, ev) l.
Proof.
  intros sub w1 w2 w3 w4.
  set (o := {| has_loadData := true; has_setAppConfig := true; of_app := true |}).
  assert (Ho1 : nth_error (objects w1) sub = Some o).
  { subst w1 sub. unfold after, mount; simpl.
    rewrite nth_error_app2, Nat.sub_diag by lia. reflexivity. }
  assert (Hc1 : cleanup w1 = Some sub) by reflexivity.
  destruct (host_run_keeps_object reducer assignAppConfig before w1 sub o Ho1)
    as [Ho2 Hc2].
  fold w2 in Ho2, Hc2. rewrite Hc1 in Hc2.
  assert (H3 : bridge_calls w3 = bridge_calls w2 ++ [Unsubscribe sub]
               /\ removed sub w3).
  { subst w3. unfold after, unmount. rewrite Hc2. simpl.
    split; [reflexivity|]. split.
    - exists o. auto.
    - intros Hin. apply filter_In in Hin. destruct Hin as [_ Hin].
      rewrite Nat.eqb_refl in Hin. discriminate. }
  destruct H3 as [Hcalls Hrem].
  destruct (host_run_keeps_removed reducer assignAppConfig afterwards w3 sub Hrem)
    as [[_ Hnot] Hinv].
  split; [reflexivity|].
  split; [|split; [exact Hcalls|split; [exact Hnot|exact Hinv]]].
  subst w1 sub. unfold after, mount; simpl.
  destruct (existsb _ (registry w)) eqn:E.
  - apply existsb_exists in E. destruct E as (x & Hx & Heq).
    apply Nat.eqb_eq in Heq. subst x. exact Hx.
  - apply in_or_app. right. left. reflexivity.
Qed.


(** ** JSON: strings *)

Module JSONFacts.
Import JSON.

Lemma unhex_hex_unit n : n < 16 -> unhex (hex_unit n) = Some n.
Proof.
  intros H. unfold unhex, hex_unit.
  destruct (N.ltb_spec n 10).
  - replace ((48 <=? 48 + n) && (48 + n <=? 57)) with true.
    + f_equal; lia.
    + symmetry; apply andb_true_iff; split; apply N.leb_le; lia.
  - replace ((48 <=? 87 + n) && (87 + n <=? 57)) with false.
    + replace ((97 <=? 87 + n) && (87 + n <=? 102)) with true.
      * f_equal; lia.
      * symmetry; apply andb_true_iff; split; apply N.leb_le; lia.
    + symmetry; apply andb_false_iff; right; apply N.leb_gt; lia.
Qed.

Lemma unhex4_hex4 c :
  c < 65536 ->
  match hex4 c with
  | [h1; h2; h3; h4] => unhex4 h1 h2 h3 h4 = Some c
  | _ => False
  end.
Proof.
  intros H. unfold hex4, unhex4.
  rewrite !unhex_hex_unit by (apply N.mod_lt; discriminate).
  f_equal.
  pose proof (N.div_mod c 16 ltac:(discriminate)) as E0.
  pose proof (N.div_mod (c / 16) 16 ltac:(discriminate)) as E1.
  pose proof (N.div_mod (c / 16 / 16) 16 ltac:(discriminate)) as E2.
  rewrite !N.Div0.div_div in E1, E2.
  change (16 * 16) with 256 in *.
  rewrite N.Div0.div_div in E2. change (256 * 16) with 4096 in *.
  assert (H3 : c / 4096 < 16) by (apply N.Div0.div_lt_upper_bound; lia).
  rewrite (N.mod_small (c / 4096) 16) by exact H3.
  lia.
Qed.

Lemma parse_string_escape c t :
  c < 65536 ->
  parse_string_body (UnicodeEscape c ++ t)
  = match parse_string_body t with
    | Some (u, rest) => Some (c :: u, rest)
    | None => None
    end.
Proof.
  intros H. pose proof (unhex4_hex4 c H) as Hh.
  unfold UnicodeEscape.
  destruct (hex4 c) as [|h1 [|h2 [|h3 [|h4 [|]]]]]; try contradiction.
  cbn. rewrite Hh. reflexivity.
Qed.

Lemma parse_string_literal c t :
  c <> 34 -> c <> 92 -> 32 <= c ->
  parse_string_body (c :: t)
  = match parse_string_body t with
    | Some (u, rest) => Some (c :: u, rest)
    | None => None
    end.
Proof.
  intros H1 H2 H3. cbn [parse_string_body].
  apply N.eqb_neq in H1, H2. rewrite H1, H2.
  replace (c <? 32) with false by (symmetry; apply N.ltb_ge; exact H3).
  reflexivity.
Qed.

Lemma parse_quote_unit c t :
  is_high_surrogate c = false -> is_low_surrogate c = false ->
  parse_string_body (quote_unit c ++ t)
  = match parse_string_body t with
    | Some (u, rest) => Some (c :: u, rest)
    | None => None
    end.
Proof.
  intros _ _. unfold quote_unit.
  repeat match goal with
         | |- context [if ?x =? ?y then _ else _] =>
             destruct (N.eqb_spec x y); [subst; reflexivity|]
         end.
  destruct (N.ltb_spec c 32).
  - apply parse_string_escape. lia.
  - apply parse_string_literal; assumption.
Qed.

Lemma surrogate_bounds c :
  is_high_surrogate c = true \/ is_low_surrogate c = true ->
  c < 65536 /\ c <> 34 /\ c <> 92 /\ 32 <= c.
Proof.
  unfold is_high_surrogate, is_low_surrogate.
  rewrite !andb_true_iff, !N.leb_le. lia.
Qed.

Lemma parse_quote_body_le n : forall s rest,
  (List.length s <= n)%nat ->
  parse_string_body (quote_body s ++ 34 :: rest) = Some (s, rest).
Proof.
  induction n as [|n IH]; intros s rest Hlen.
  - destruct s; [reflexivity | simpl in Hlen; lia].
  - destruct s as [|c r]; [reflexivity|].
    simpl in Hlen. cbn [quote_body].
    assert (IHr : parse_string_body (quote_body r ++ 34 :: rest) = Some (r, rest))
      by (apply IH; lia).
    destruct (is_high_surrogate c) eqn:Hh.
    + destruct (surrogate_bounds c (or_introl Hh)) as (B1 & B2 & B3 & B4).
      destruct r as [|c2 r2].
      * rewrite parse_string_escape by exact B1. reflexivity.
      * destruct (is_low_surrogate c2) eqn:Hl2.
        -- destruct (surrogate_bounds c2 (or_intror Hl2)) as (C1 & C2 & C3 & C4).
           change ((c :: c2 :: quote_body r2) ++ 34 :: rest)
             with (c :: c2 :: (quote_body r2 ++ 34 :: rest)).
           rewrite parse_string_literal by assumption.
           rewrite parse_string_literal by assumption.
           rewrite IH by (simpl in Hlen; lia). reflexivity.
        -- rewrite <- app_assoc, parse_string_escape by exact B1.
           rewrite IHr. reflexivity.
    + destruct (is_low_surrogate c) eqn:Hl.
      * destruct (surrogate_bounds c (or_intror Hl)) as (B1 & _).
        rewrite <- app_assoc, parse_string_escape by exact B1.
        rewrite IHr. reflexivity.
      * rewrite <- app_assoc, parse_quote_unit by assumption.
        rewrite IHr. reflexivity.
Qed.

(** A quoted string reads back as the string, whatever follows the closing
    quote. *)
Lemma parse_quote_body s rest :
  parse_string_body (quote_body s ++ 34 :: rest) = Some (s, rest).
Proof. apply (parse_quote_body_le (List.length s)). lia. Qed.

(** ** JSON: numbers *)

Lemma unit_digit_unit d : unit_digit (digit_unit d) = Some d.
Proof. destruct d; reflexivity. Qed.

Lemma digits_uint_digits u : digits_uint (uint_digits u) = u.
Proof. induction u; simpl; congruence. Qed.

Lemma digits_N_digits n : digits_N (N_digits n) = n.
Proof.
  unfold digits_N, N_digits. rewrite digits_uint_digits.
  apply DecimalN.Unsigned.of_to.
Qed.

Lemma N_digits_nonempty n : N_digits n <> [].
Proof.
  unfold N_digits. destruct n as [|p]; [discriminate|].
  pose proof (DecimalPos.Unsigned.to_uint_nonnil p) as H.
  change (N.to_uint (N.pos p)) with (Pos.to_uint p).
  destruct (Pos.to_uint p); [contradiction | discriminate ..].
Qed.

Lemma take_digits_string ds rest :
  match rest with c :: _ => unit_digit c = None | [] => True end ->
  take_digits (digits_string ds ++ rest) = (ds, rest).
Proof.
  intros H. induction ds as [|d ds IH]; simpl.
  - destruct rest as [|c r]; [reflexivity|]. simpl. rewrite H. reflexivity.
  - rewrite unit_digit_unit, IH. reflexivity.
Qed.

Lemma number_end_digit rest :
  number_end rest = true ->
  match rest with c :: _ => unit_digit c = None | [] => True end.
Proof.
  destruct rest as [|c r]; [auto|]. simpl.
  destruct (unit_digit c); [discriminate | reflexivity].
Qed.

Lemma parse_frac_none rest :
  number_end rest = true -> parse_frac rest = Some ([], rest).
Proof.
  destruct rest as [|c r]; [reflexivity|]. simpl.
  destruct (unit_digit c); [discriminate|].
  destruct (c =? 46); [discriminate | reflexivity].
Qed.

Lemma parse_exp_none rest :
  number_end rest = true -> parse_exp rest = Some (0%Z, rest).
Proof.
  destruct rest as [|c r]; [reflexivity|]. simpl.
  destruct (unit_digit c); [discriminate|].
  destruct (c =? 46); [discriminate|].
  destruct (c =? 101); [discriminate|].
  destruct (c =? 69); [discriminate | reflexivity].
Qed.

Lemma parse_frac_digits ds rest :
  ds <> [] ->
  match rest with c :: _ => unit_digit c = None | [] => True end ->
  parse_frac (46 :: digits_string ds ++ rest) = Some (ds, rest).
Proof.
  intros Hne H. unfold parse_frac. change (46 =? 46) with true. cbn iota.
  rewrite take_digits_string by exact H.
  destruct ds; [contradiction | reflexivity].
Qed.

Lemma parse_exp_digits (e : Z) rest :
  match rest with c :: _ => unit_digit c = None | [] => True end ->
  parse_exp (str "e" ++ (if (e <? 0)%Z then str "-" else str "+")
             ++ digits_string (N_digits (Z.abs_N e)) ++ rest)
  = Some (e, rest).
Proof.
  intros H. pose proof (N_digits_nonempty (Z.abs_N e)) as Hne.
  destruct (Z.ltb_spec e 0); cbn -[take_digits N_digits digits_N];
    rewrite take_digits_string by exact H;
    (destruct (N_digits (Z.abs_N e)) eqn:E; [contradiction|]);
    rewrite <- E, digits_N_digits; f_equal; f_equal; lia.
Qed.

Lemma strip_zeros_zeros k s : strip_zeros (repeat D0 k ++ s) = strip_zeros s.
Proof. induction k; simpl; auto. Qed.

Lemma leading_zeros_zeros k d r :
  d <> D0 -> leading_zeros (repeat D0 k ++ d :: r) = k.
Proof.
  intros H. induction k; simpl; [destruct d; congruence | congruence].
Qed.

Lemma strip_zeros_head d r : d <> D0 -> strip_zeros (d :: r) = d :: r.
Proof. destruct d; intros H; try reflexivity; contradiction. Qed.

Lemma leading_zeros_head d r : d <> D0 -> leading_zeros (d :: r) = O.
Proof. destruct d; intros H; try reflexivity; contradiction. Qed.

Lemma rev_repeat_D0 k : List.rev (repeat D0 k) = repeat D0 k.
Proof.
  induction k; simpl; [reflexivity|]. rewrite IHk.
  clear. induction k; simpl; congruence.
Qed.

Lemma strip_trailing s k :
  s <> [] -> last s D1 <> D0 ->
  List.rev (strip_zeros (List.rev (s ++ repeat D0 k))) = s.
Proof.
  intros Hne Hlast.
  rewrite rev_app_distr, rev_repeat_D0, strip_zeros_zeros.
  destruct (List.rev s) as [|x t] eqn:E.
  - apply (f_equal (@List.rev digit)) in E. rewrite rev_involutive in E.
    subst s. contradiction.
  - assert (Hs : s = List.rev t ++ [x]).
    { apply (f_equal (@List.rev digit)) in E. rewrite rev_involutive in E.
      exact E. }
    rewrite Hs, last_last in Hlast.
    rewrite strip_zeros_head by exact Hlast.
    rewrite Hs. reflexivity.
Qed.

Lemma canonical_digits neg d r n :
  canonical (Finite neg (d :: r) n) = true ->
  d <> D0 /\ last (d :: r) D1 <> D0.
Proof.
  unfold canonical. rewrite andb_true_iff, !negb_true_iff.
  intros [H1 H2]. split; intros E; rewrite E in *; discriminate.
Qed.

(** The number a literal with significant digits [d :: r] denotes. *)
Lemma make_number_digits neg int frac e d r j :
  d <> D0 -> last (d :: r) D1 <> D0 ->
  strip_zeros (int ++ frac) = (d :: r) ++ repeat D0 j ->
  make_number neg int frac e
  = Finite neg (d :: r)
      (Z.of_nat (List.length int) - Z.of_nat (leading_zeros (int ++ frac)) + e).
Proof.
  intros Hd Hlast Hs. unfold make_number. cbv zeta. rewrite Hs.
  rewrite (strip_trailing (d :: r) j ltac:(discriminate) Hlast). reflexivity.
Qed.

Lemma parse_int_part_digits d ds rest :
  d <> D0 ->
  match rest with c :: _ => unit_digit c = None | [] => True end ->
  parse_int_part (digits_string (d :: ds) ++ rest) = Some (d :: ds, rest).
Proof.
  intros Hd H.
  change (digits_string (d :: ds) ++ rest)
    with (digit_unit d :: (digits_string ds ++ rest)).
  unfold parse_int_part.
  rewrite unit_digit_unit, take_digits_string by exact H.
  destruct d; try reflexivity. contradiction.
Qed.

Lemma unit_digit_sep c :
  c = 46 \/ c = 101 -> unit_digit c = None.
Proof. intros [-> | ->]; reflexivity. Qed.

(** The text of a number above zero reads back as that number. *)
Lemma parse_unsigned_positive neg d r n rest :
  d <> D0 -> last (d :: r) D1 <> D0 -> number_end rest = true ->
  parse_unsigned neg (positive_to_string d r n ++ rest)
  = POk (JNumber (Finite neg (d :: r) n)) rest.
Proof.
  intros Hd Hlast Hend.
  pose proof (number_end_digit rest Hend) as Hnd.
  unfold positive_to_string. cbv zeta.
  set (k := Z.of_nat (List.length (d :: r))).
  assert (Hk : k = (Z.of_nat (List.length r) + 1)%Z) by (subst k; simpl List.length; lia).
  destruct ((k <=? n) && (n <=? 21))%Z eqn:C1.
  { (* plain digits *)
    apply andb_true_iff in C1. destruct C1 as [C1 _]. apply Z.leb_le in C1.
    change ((d :: r) ++ zeros (n - k)) with (d :: (r ++ zeros (n - k))).
    unfold parse_unsigned.
    rewrite parse_int_part_digits by assumption.
    rewrite parse_frac_none, parse_exp_none by assumption.
    rewrite (make_number_digits neg _ [] 0 d r (Z.to_nat (n - k))); try assumption.
    - do 3 f_equal. rewrite app_nil_r.
      rewrite leading_zeros_head by assumption.
      simpl List.length. unfold zeros. rewrite length_app, repeat_length. lia.
    - rewrite app_nil_r. rewrite strip_zeros_head by assumption. reflexivity. }
  destruct ((0 <? n) && (n <=? 21))%Z eqn:C2.
  { (* digits with a point *)
    apply andb_true_iff in C2. destruct C2 as [C2 C2']. apply Z.ltb_lt in C2.
    apply andb_false_iff in C1. rewrite C2' in C1.
    assert (Hn : (n < k)%Z) by (destruct C1 as [C1|C1]; [apply Z.leb_gt in C1; lia | discriminate]).
    destruct (Z.to_nat n) as [|m] eqn:Em; [lia|].
    cbn [firstn skipn].
    assert (Hm : (m < List.length r)%nat) by lia.
    rewrite <- !app_assoc.
    change (str "." ++ digits_string (skipn m r) ++ rest)
      with (46 :: digits_string (skipn m r) ++ rest).
    unfold parse_unsigned.
    rewrite parse_int_part_digits by (try assumption; reflexivity).
    rewrite parse_frac_digits; try assumption.
    2:{ intros E. apply (f_equal (@List.length digit)) in E.
        rewrite length_skipn in E. simpl in E. lia. }
    rewrite parse_exp_none by assumption.
    rewrite (make_number_digits neg _ _ 0 d r 0); try assumption.
    - do 3 f_equal. rewrite <- app_comm_cons, firstn_skipn.
      rewrite leading_zeros_head by assumption.
      simpl List.length. rewrite length_firstn. lia.
    - rewrite <- app_comm_cons, firstn_skipn, app_nil_r.
      apply strip_zeros_head; assumption. }
  destruct ((-6 <? n) && (n <=? 0))%Z eqn:C3.
  { (* a fraction below one *)
    apply andb_true_iff in C3. destruct C3 as [_ C3]. apply Z.leb_le in C3.
    change (str "0." ++ digits_string (zeros (- n) ++ d :: r))
      with (48 :: 46 :: digits_string (zeros (- n) ++ d :: r)).
    cbn [List.app]. unfold parse_unsigned.
    change (parse_int_part (48 :: 46 :: digits_string (zeros (- n) ++ d :: r) ++ rest))
      with (Some ([D0], 46 :: digits_string (zeros (- n) ++ d :: r) ++ rest)).
    cbn iota.
    rewrite parse_frac_digits; try assumption.
    2:{ destruct (zeros (- n)); discriminate. }
    rewrite parse_exp_none by assumption.
    rewrite (make_number_digits neg _ _ 0 d r 0); try assumption.
    - do 3 f_equal. cbn [List.app leading_zeros List.length]. unfold zeros.
      rewrite leading_zeros_zeros by assumption. lia.
    - cbn [List.app strip_zeros repeat]. unfold zeros.
      rewrite strip_zeros_zeros, app_nil_r. apply strip_zeros_head; assumption. }
  (* exponent notation *)
  assert (Hexp : forall rest' : jsstring,
             parse_exp (str "e" ++ (if (n - 1 <? 0)%Z then str "-" else str "+")
                        ++ digits_string (N_digits (Z.abs_N (n - 1))) ++ rest)
             = Some ((n - 1)%Z, rest)).
  { intros _. apply parse_exp_digits. exact Hnd. }
  rewrite <- !app_assoc.
  unfold parse_unsigned.
  destruct r as [|d2 r2].
  - cbn [List.app].
    rewrite parse_int_part_digits by (try assumption; reflexivity).
    change (parse_frac (str "e" ++ (if (n - 1 <? 0)%Z then str "-" else str "+")
                        ++ digits_string (N_digits (Z.abs_N (n - 1))) ++ rest))
      with (Some (@nil digit,
                  str "e" ++ (if (n - 1 <? 0)%Z then str "-" else str "+")
                  ++ digits_string (N_digits (Z.abs_N (n - 1))) ++ rest)).
    cbn iota. rewrite (Hexp rest).
    rewrite (make_number_digits neg _ _ _ d [] 0); try assumption.
    + do 3 f_equal. cbn [List.app]. rewrite leading_zeros_head by assumption.
      simpl List.length. lia.
    + cbn [List.app repeat]. apply strip_zeros_head; assumption.
  - rewrite <- !app_assoc.
    change (str "." ++ digits_string (d2 :: r2) ++ ?x)
      with (46 :: digits_string (d2 :: r2) ++ x).
    change (digits_string [d] ++ str "." ++ digits_string (d2 :: r2)
            ++ str "e" ++ (if (n - 1 <? 0)%Z then str "-" else str "+")
            ++ digits_string (N_digits (Z.abs_N (n - 1))) ++ rest)
      with (digits_string [d]
            ++ 46 :: digits_string (d2 :: r2)
            ++ str "e" ++ (if (n - 1 <? 0)%Z then str "-" else str "+")
            ++ digits_string (N_digits (Z.abs_N (n - 1))) ++ rest).
    rewrite parse_int_part_digits by (try assumption; reflexivity).
    rewrite parse_frac_digits by (try discriminate; reflexivity).
    rewrite (Hexp rest).
    rewrite (make_number_digits neg _ _ _ d (d2 :: r2) 0); try assumption.
    + do 3 f_equal. cbn [List.app]. rewrite leading_zeros_head by assumption.
      simpl List.length. lia.
    + cbn [List.app repeat]. rewrite app_nil_r. apply strip_zeros_head; assumption.
Qed.

Lemma positive_to_string_head d r n :
  exists d0 t, positive_to_string d r n = digit_unit d0 :: t.
Proof.
  unfold positive_to_string. cbv zeta.
  destruct ((Z.of_nat (List.length (d :: r)) <=? n) && (n <=? 21))%Z;
    [eexists _, _; reflexivity|].
  destruct ((0 <? n) && (n <=? 21))%Z eqn:C2.
  { apply andb_true_iff in C2. destruct C2 as [C2 _]. apply Z.ltb_lt in C2.
    destruct (Z.to_nat n) eqn:E; [lia|]. eexists _, _; reflexivity. }
  destruct ((-6 <? n) && (n <=? 0))%Z; [exists D0; eexists; reflexivity|].
  eexists _, _; reflexivity.
Qed.

Lemma digit_unit_not_minus d : (digit_unit d =? 45) = false.
Proof. destruct d; reflexivity. Qed.

(** The text of a finite number other than -0 reads back as the number. *)
Lemma parse_number_text x rest :
  canonical x = true -> json_value (JNumber x) = true ->
  number_end rest = true ->
  parse_number (NumberToString x ++ rest) = POk (JNumber x) rest.
Proof.
  intros Hc Hj Hend. destruct x as [| |neg s n]; try discriminate.
  destruct s as [|d r].
  - simpl in Hc, Hj. apply Z.eqb_eq in Hc. subst n.
    destruct neg; [discriminate|].
    change (NumberToString (Finite false [] 0) ++ rest) with (48 :: rest).
    unfold parse_number. change (48 =? 45) with false. cbn iota.
    unfold parse_unsigned.
    change (parse_int_part (48 :: rest)) with (Some ([D0], rest)). cbn iota.
    rewrite parse_frac_none, parse_exp_none by assumption. reflexivity.
  - destruct (canonical_digits neg d r n Hc) as [Hd Hlast].
    pose proof (parse_unsigned_positive neg d r n rest Hd Hlast Hend) as H.
    cbn [NumberToString]. destruct neg.
    + change ((str "-" ++ positive_to_string d r n) ++ rest)
        with (45 :: (positive_to_string d r n ++ rest)).
      unfold parse_number. change (45 =? 45) with true. cbn iota. exact H.
    + cbn [List.app].
      destruct (positive_to_string_head d r n) as (d0 & t & E).
      rewrite E in *. cbn [List.app] in *.
      unfold parse_number. rewrite digit_unit_not_minus. exact H.
Qed.

Lemma number_text_head x :
  is_finite x = true ->
  exists c t, NumberToString x = c :: t
              /\ (c = 45 \/ exists d, c = digit_unit d).
Proof.
  destruct x as [| |neg s n]; try discriminate. intros _.
  destruct s as [|d r]; [exists 48, []; split; [reflexivity|right; exists D0; reflexivity]|].
  cbn [NumberToString]. destruct neg.
  - eexists _, _; split; [reflexivity|left; reflexivity].
  - destruct (positive_to_string_head d r n) as (d0 & t & E).
    rewrite E. exists (digit_unit d0), t. split; [reflexivity|right; eauto].
Qed.

(** ** JSON: values *)

Lemma parse_value_number fuel c t :
  c = 45 \/ (exists d, c = digit_unit d) ->
  parse_value (S fuel) (c :: t) = parse_number (c :: t).
Proof.
  intros [-> | [d ->]]; [reflexivity|]. destruct d; reflexivity.
Qed.

Lemma unit_digit_range c d : unit_digit c = Some d -> 48 <= c <= 57.
Proof.
  unfold unit_digit. intros E.
  repeat match type of E with
         | match ?p with _ => _ end = _ => destruct p; try discriminate
         end; lia.
Qed.

Lemma value_start_facts c :
  value_start c = true -> is_ws c = false /\ c <> 93 /\ c <> 125 /\ c <> 44.
Proof.
  unfold value_start, is_ws. intros H.
  assert (Hc : c = 123 \/ c = 91 \/ c = 34 \/ c = 116 \/ c = 102 \/ c = 110
               \/ c = 45 \/ 48 <= c <= 57).
  { rewrite !orb_true_iff, !N.eqb_eq in H.
    destruct (unit_digit c) eqn:E.
    - apply unit_digit_range in E. tauto.
    - intuition discriminate. }
  rewrite !orb_false_iff, !N.eqb_neq. lia.
Qed.

Lemma skip_ws_start c t : value_start c = true -> skip_ws (c :: t) = c :: t.
Proof.
  intros H. apply value_start_facts in H. destruct H as [H _].
  simpl. rewrite H. reflexivity.
Qed.

Lemma value_end_number_end rest : value_end rest = true -> number_end rest = true.
Proof.
  destruct rest as [|c r]; [reflexivity|]. simpl.
  rewrite !orb_true_iff, !N.eqb_eq. intros [[-> | ->] | ->]; reflexivity.
Qed.

Lemma serialize_json_value v :
  json_value v = true -> SerializeJSONProperty v = Some (text_of v).
Proof.
  unfold text_of. destruct v as [| |[]| | | |]; try reflexivity. discriminate.
Qed.

Lemma text_of_array l :
  text_of (JArray l) = 91 :: join (str ",") (map text_of l) ++ [93].
Proof. reflexivity. Qed.

Lemma text_of_object ps :
  forallb (fun kv => json_value (snd kv)) ps = true ->
  text_of (JObject ps) = 123 :: join (str ",") (map member_text ps) ++ [125].
Proof.
  intros H. unfold text_of. cbn [SerializeJSONProperty].
  change (str "{" ++ ?x ++ str "}") with (123 :: x ++ [125]).
  do 3 f_equal.
  induction ps as [|[k v] ps IH]; [reflexivity|].
  cbn [forallb snd] in H. apply andb_true_iff in H. destruct H as [Hv Hps].
  cbn [flat_map map snd fst]. rewrite (serialize_json_value v Hv).
  rewrite IH by exact Hps. reflexivity.
Qed.

Lemma text_of_head v :
  json_value v = true ->
  exists c t, text_of v = c :: t /\ value_start c = true.
Proof.
  intros H. destruct v as [| |[]|x|s|l|ps]; try discriminate;
    try (eexists _, _; split; reflexivity).
  destruct x as [| |neg ds n]; try discriminate.
  destruct (number_text_head (Finite neg ds n) eq_refl) as (c & t & E & Hc).
  exists c, t. split; [exact E|].
  destruct Hc as [-> | [d ->]]; [reflexivity | destruct d; reflexivity].
Qed.

Lemma join_head sep c t ps :
  exists u, join sep ((c :: t) :: ps) = c :: u.
Proof. destruct ps; simpl; eauto. Qed.

Lemma parse_value_array f X :
  parse_value (S f) (91 :: X)
  = match skip_ws X with
    | c1 :: r1 =>
        if c1 =? 93 then POk (JArray []) r1 else parse_elements f [] (c1 :: r1)
    | [] => PSyntaxError
    end.
Proof. reflexivity. Qed.

Lemma parse_value_object f X :
  parse_value (S f) (123 :: X)
  = match skip_ws X with
    | c1 :: r1 =>
        if c1 =? 125 then POk (JObject []) r1 else parse_members f [] (c1 :: r1)
    | [] => PSyntaxError
    end.
Proof. reflexivity. Qed.

Lemma parse_value_string f X :
  parse_value (S f) (34 :: X)
  = match parse_string_body X with
    | Some (t, rest) => POk (JString t) rest
    | None => PSyntaxError
    end.
Proof. reflexivity. Qed.

Lemma parse_elements_step f acc s :
  parse_elements (S f) acc s
  = match parse_value f s with
    | POk v rest =>
        match skip_ws rest with
        | c :: r =>
            if c =? 44 then parse_elements f (acc ++ [v]) r
            else if c =? 93 then POk (JArray (acc ++ [v])) r
            else PSyntaxError
        | [] => PSyntaxError
        end
    | PSyntaxError => PSyntaxError
    | PFuel => PFuel
    end.
Proof. reflexivity. Qed.

Lemma parse_members_step f acc k X :
  parse_members (S f) acc (34 :: quote_body k ++ 34 :: 58 :: X)
  = match parse_value f X with
    | POk v rest2 =>
        match skip_ws rest2 with
        | c2 :: r2 =>
            if c2 =? 44 then parse_members f (CreateDataProperty acc k v) r2
            else if c2 =? 125 then POk (JObject (CreateDataProperty acc k v)) r2
            else PSyntaxError
        | [] => PSyntaxError
        end
    | PSyntaxError => PSyntaxError
    | PFuel => PFuel
    end.
Proof.
  change (parse_members (S f) acc (34 :: quote_body k ++ 34 :: 58 :: X))
    with (match parse_string_body (quote_body k ++ 34 :: 58 :: X) with
          | Some (k, rest) =>
              match skip_ws rest with
              | c1 :: r1 =>
                  if c1 =? 58 then
                    match parse_value f r1 with
                    | POk v rest2 =>
                        match skip_ws rest2 with
                        | c2 :: r2 =>
                            if c2 =? 44 then
                              parse_members f (CreateDataProperty acc k v) r2
                            else if c2 =? 125 then
                              POk (JObject (CreateDataProperty acc k v)) r2
                            else PSyntaxError
                        | [] => PSyntaxError
                        end
                    | PSyntaxError => PSyntaxError
                    | PFuel => PFuel
                    end
                  else PSyntaxError
              | [] => PSyntaxError
              end
          | None => PSyntaxError
          end).
  rewrite parse_quote_body. reflexivity.
Qed.

(** *** Properties created in enumeration order *)

Lemma distinct_keys_absent ka k kr :
  distinct_keys (ka ++ k :: kr) = true ->
  existsb (fun a => jsstring_eqb a k) ka = false.
Proof.
  induction ka as [|a ka IH]; [reflexivity|].
  cbn [List.app distinct_keys existsb].
  rewrite andb_true_iff, negb_true_iff. intros [Ha Hd].
  rewrite (IH Hd), orb_false_r.
  apply jsstring_eqb_neq. intros ->.
  rewrite existsb_app in Ha. cbn [existsb] in Ha.
  rewrite jsstring_eqb_refl, orb_true_r in Ha. discriminate.
Qed.

Lemma ordered_keys_before lo plain ka k kr i :
  ordered_keys lo plain (ka ++ k :: kr) = true ->
  array_index k = Some i ->
  forall a, In a ka -> exists j, array_index a = Some j /\ j < i.
Proof.
  revert lo plain. induction ka as [|a ka IH]; intros lo plain Ho Hk b Hb;
    [destruct Hb|].
  cbn [List.app ordered_keys] in Ho.
  assert (Hfirst : forall lo plain,
             ordered_keys lo plain (ka ++ k :: kr) = true ->
             plain = false /\ forall j, lo = Some j -> j < i).
  { clear - Hk. induction ka as [|a ka IH]; intros lo plain Ho.
    - cbn [List.app ordered_keys] in Ho. rewrite Hk in Ho.
      rewrite !andb_true_iff, negb_true_iff in Ho.
      destruct Ho as [[Hp Hlo] _]. split; [exact Hp|].
      intros j ->. apply N.ltb_lt. exact Hlo.
    - cbn [List.app ordered_keys] in Ho.
      destruct (array_index a) as [j|].
      + rewrite !andb_true_iff, negb_true_iff in Ho.
        destruct Ho as [[Hp Hlo] Ho]. split; [exact Hp|].
        destruct (IH _ _ Ho) as [_ Hj]. specialize (Hj j eq_refl).
        intros j0 ->. apply N.ltb_lt in Hlo. lia.
      + destruct (IH _ _ Ho) as [Hp _]. discriminate. }
  destruct (array_index a) as [j|] eqn:Ea.
  - rewrite !andb_true_iff in Ho. destruct Ho as [_ Ho].
    destruct Hb as [<- | Hb].
    + exists j. split; [exact Ea|]. destruct (Hfirst _ _ Ho) as [_ Hj]. auto.
    + exact (IH _ _ Ho Hk b Hb).
  - destruct (Hfirst _ _ Ho) as [Hp _]. discriminate.
Qed.

Lemma insert_index_append i k v acc :
  (forall kv, In kv acc -> exists j, array_index (fst kv) = Some j /\ j < i) ->
  insert_index i k v acc = acc ++ [(k, v)].
Proof.
  induction acc as [|[a x] acc IH]; intros H; [reflexivity|].
  cbn [insert_index List.app].
  destruct (H (a, x) (or_introl eq_refl)) as (j & Ej & Hj).
  cbn [fst] in Ej. rewrite Ej.
  replace (j <? i) with true by (symmetry; apply N.ltb_lt; exact Hj).
  rewrite IH; [reflexivity|]. intros kv Hkv. apply H. right. exact Hkv.
Qed.

Lemma existsb_map_fst (f : jsstring -> bool) (l : list (jsstring * value)) :
  existsb f (map fst l) = existsb (fun kv => f (fst kv)) l.
Proof. induction l as [|x l IH]; simpl; [reflexivity | now rewrite IH]. Qed.

(** A property that comes next in enumeration order is created at the end. *)
Lemma CreateDataProperty_append acc k v ps :
  distinct_keys (map fst (acc ++ (k, v) :: ps)) = true ->
  ordered_keys None false (map fst (acc ++ (k, v) :: ps)) = true ->
  CreateDataProperty acc k v = acc ++ [(k, v)].
Proof.
  rewrite map_app. cbn [map fst]. intros Hd Ho.
  unfold CreateDataProperty, has_key.
  pose proof (distinct_keys_absent _ _ _ Hd) as Habs.
  rewrite existsb_map_fst in Habs. rewrite Habs.
  destruct (array_index k) as [i|] eqn:Ek; [|reflexivity].
  apply insert_index_append. intros kv Hkv.
  apply (ordered_keys_before _ _ _ _ _ i Ho Ek). apply in_map. exact Hkv.
Qed.

(** *** The round trip of a value *)

Lemma skip_ws_cons c t : is_ws c = false -> skip_ws (c :: t) = c :: t.
Proof. intros H. simpl. rewrite H. reflexivity. Qed.

Lemma parse_elements_text l :
  Forall reads_back l ->
  forallb well_formed l = true -> forallb json_value l = true -> l <> [] ->
  forall acc fuel rest,
    (fold_right (fun e n => S (size e + n)) O l <= fuel)%nat ->
    parse_elements fuel acc (join (str ",") (map text_of l) ++ 93 :: rest)
    = POk (JArray (acc ++ l)) rest.
Proof.
  induction l as [|e l IH]; intros Hall Hwf Hjs Hne acc fuel rest Hfuel;
    [contradiction|].
  inversion Hall as [|? ? He Hl]; subst.
  cbn [forallb] in Hwf, Hjs. apply andb_true_iff in Hwf, Hjs.
  destruct Hwf as [Hwe Hwl], Hjs as [Hje Hjl].
  cbn [fold_right] in Hfuel.
  destruct fuel as [|f]; [lia|].
  rewrite parse_elements_step.
  destruct l as [|e2 l'].
  - cbn [map join].
    rewrite (He Hwe Hje f (93 :: rest)) by (try reflexivity; lia).
    rewrite skip_ws_cons by reflexivity. reflexivity.
  - change (join (str ",") (map text_of (e :: e2 :: l')))
      with (text_of e ++ str "," ++ join (str ",") (map text_of (e2 :: l'))).
    rewrite <- !app_assoc.
    change (str "," ++ ?x) with (44 :: x).
    rewrite (He Hwe Hje f) by (try reflexivity; lia).
    rewrite skip_ws_cons by reflexivity.
    change (44 =? 44) with true. cbn iota.
    rewrite (IH Hl Hwl Hjl ltac:(discriminate) (acc ++ [e]) f rest)
      by (cbn [fold_right] in *; lia).
    rewrite <- app_assoc. reflexivity.
Qed.

Lemma member_text_app k v Y :
  member_text (k, v) ++ Y = 34 :: quote_body k ++ 34 :: 58 :: text_of v ++ Y.
Proof.
  unfold member_text, QuoteJSONString. cbn [fst snd].
  rewrite <- !app_assoc. cbn [List.app]. rewrite <- app_assoc. reflexivity.
Qed.

Lemma parse_members_text ps :
  Forall (fun kv => reads_back (snd kv)) ps ->
  forallb (fun kv => well_formed (snd kv)) ps = true ->
  forallb (fun kv => json_value (snd kv)) ps = true -> ps <> [] ->
  forall acc fuel rest,
    (fold_right (fun kv n => S (size (snd kv) + n)) O ps <= fuel)%nat ->
    distinct_keys (map fst (acc ++ ps)) = true ->
    ordered_keys None false (map fst (acc ++ ps)) = true ->
    parse_members fuel acc (join (str ",") (map member_text ps) ++ 125 :: rest)
    = POk (JObject (acc ++ ps)) rest.
Proof.
  induction ps as [|[k v] ps IH];
    intros Hall Hwf Hjs Hne acc fuel rest Hfuel Hd Ho; [contradiction|].
  inversion Hall as [|? ? He Hl]; subst. cbn [snd] in He.
  cbn [forallb snd] in Hwf, Hjs. apply andb_true_iff in Hwf, Hjs.
  destruct Hwf as [Hwe Hwl], Hjs as [Hje Hjl].
  cbn [fold_right snd] in Hfuel.
  destruct fuel as [|f]; [lia|].
  pose proof (CreateDataProperty_append acc k v ps Hd Ho) as Hcreate.
  destruct ps as [|kv2 ps'].
  - cbn [map join]. rewrite member_text_app, parse_members_step.
    rewrite (He Hwe Hje f (125 :: rest)) by (try reflexivity; lia).
    rewrite skip_ws_cons by reflexivity.
    change (125 =? 44) with false. change (125 =? 125) with true. cbn iota.
    rewrite Hcreate. reflexivity.
  - change (join (str ",") (map member_text ((k, v) :: kv2 :: ps')))
      with (member_text (k, v) ++ str ","
            ++ join (str ",") (map member_text (kv2 :: ps'))).
    rewrite <- !app_assoc.
    change (str "," ++ ?x) with (44 :: x).
    rewrite member_text_app, parse_members_step.
    rewrite (He Hwe Hje f) by (try reflexivity; lia).
    rewrite skip_ws_cons by reflexivity.
    change (44 =? 44) with true. cbn iota.
    rewrite Hcreate.
    rewrite (IH Hl Hwl Hjl ltac:(discriminate) (acc ++ [(k, v)]) f rest).
    + rewrite <- app_assoc. reflexivity.
    + cbn [fold_right] in *; lia.
    + rewrite <- app_assoc. exact Hd.
    + rewrite <- app_assoc. exact Ho.
Qed.

Lemma join_text_head e l c t :
  text_of e = c :: t ->
  exists u, join (str ",") (map text_of (e :: l)) = c :: u.
Proof.
  intros E. cbn [map]. rewrite E. destruct (map text_of l); simpl; eauto.
Qed.

Lemma join_member_head k v ps :
  exists u, join (str ",") (map member_text ((k, v) :: ps)) = 34 :: u.
Proof.
  cbn [map]. unfold member_text at 1, QuoteJSONString. cbn [fst snd List.app].
  destruct (map member_text ps); simpl; eauto.
Qed.

Lemma parse_value_text v : reads_back v.
Proof.
  induction v as [| |b|x|s|l IHl|ps IHps] using value_ind';
    intros Hwf Hjs fuel rest Hfuel Hend;
    (destruct fuel as [|f]; [simpl in Hfuel; lia|]).
  - discriminate.
  - reflexivity.
  - destruct b; reflexivity.
  - assert (Hfin : is_finite x = true) by (destruct x; [discriminate ..|reflexivity]).
    destruct (number_text_head x Hfin) as (c & t & E & Hc).
    change (text_of (JNumber x))
      with (if is_finite x then NumberToString x else str "null").
    rewrite Hfin.
    pose proof (parse_number_text x rest Hwf Hjs (value_end_number_end _ Hend)) as H.
    rewrite E in *. cbn [List.app] in *.
    rewrite parse_value_number by exact Hc. exact H.
  - change (text_of (JString s) ++ rest) with (34 :: (quote_body s ++ [34]) ++ rest).
    rewrite <- app_assoc. cbn [List.app].
    rewrite parse_value_string, parse_quote_body. reflexivity.
  - rewrite text_of_array. cbn [List.app]. rewrite <- app_assoc. cbn [List.app].
    destruct l as [|e l']; [reflexivity|].
    cbn [well_formed json_value] in Hwf, Hjs.
    assert (Hje : json_value e = true)
      by (cbn [forallb] in Hjs; apply andb_true_iff in Hjs; tauto).
    destruct (text_of_head e Hje) as (c & t & Et & Hc).
    destruct (join_text_head e l' c t Et) as (u & Hx).
    rewrite parse_value_array.
    rewrite Hx. cbn [List.app]. rewrite skip_ws_start by exact Hc.
    replace (c =? 93) with false
      by (symmetry; apply N.eqb_neq; apply value_start_facts; exact Hc).
    rewrite app_comm_cons.
    rewrite <- Hx.
    apply (parse_elements_text (e :: l') IHl Hwf Hjs ltac:(discriminate) []).
    cbn [size] in Hfuel. lia.
  - cbn [well_formed json_value] in Hwf, Hjs.
    rewrite !andb_true_iff in Hwf. destruct Hwf as [[Hd Ho] Hwf].
    rewrite text_of_object by exact Hjs.
    cbn [List.app]. rewrite <- app_assoc. cbn [List.app].
    destruct ps as [|[k v] ps']; [reflexivity|].
    rewrite parse_value_object.
    destruct (join_member_head k v ps') as (u & Hx).
    rewrite Hx. cbn [List.app]. rewrite skip_ws_cons by reflexivity.
    change (34 =? 125) with false. cbn iota.
    rewrite app_comm_cons.
    rewrite <- Hx.
    apply (parse_members_text ((k, v) :: ps') IHps Hwf Hjs ltac:(discriminate) []).
    + cbn [size] in Hfuel. lia.
    + exact Hd.
    + exact Ho.
Qed.

(** *** The recursion budget of [parse] *)

Lemma join_length c parts :
  (fold_right (fun p n => S (List.length p + n)) O parts
   <= S (List.length (join [c] parts)))%nat.
Proof.
  induction parts as [|p ps IH]; [simpl; lia|].
  destruct ps as [|q ps'].
  - simpl. lia.
  - change (join [c] (p :: q :: ps')) with (p ++ [c] ++ join [c] (q :: ps')).
    cbn [fold_right] in *. rewrite !length_app. cbn [List.length]. lia.
Qed.

Lemma size_le_text v : json_value v = true -> (size v <= List.length (text_of v))%nat.
Proof.
  induction v as [| |b|x|s|l IHl|ps IHps] using value_ind'; intros Hjs.
  - discriminate.
  - simpl; lia.
  - destruct b; simpl; lia.
  - destruct (text_of_head (JNumber x) Hjs) as (c & t & E & _).
    rewrite E. simpl. lia.
  - destruct (text_of_head (JString s) Hjs) as (c & t & E & _).
    rewrite E. simpl. lia.
  - rewrite text_of_array. cbn [size List.length]. rewrite length_app.
    pose proof (join_length 44 (map text_of l)) as Hj.
    change [44] with (str ",") in Hj.
    cbn [json_value] in Hjs.
    assert (H : (fold_right (fun e n => S (size e + n)) O l
                 <= fold_right (fun p n => S (List.length p + n)) O (map text_of l))%nat).
    { clear Hj. induction l as [|e l IH]; [simpl; lia|].
      inversion IHl as [|? ? He Hl]; subst.
      cbn [forallb] in Hjs. apply andb_true_iff in Hjs. destruct Hjs as [Hje Hjl].
      cbn [fold_right map]. specialize (He Hje). specialize (IH Hl Hjl). lia. }
    simpl List.length. lia.
  - cbn [json_value] in Hjs. rewrite text_of_object by exact Hjs.
    cbn [size List.length]. rewrite length_app.
    pose proof (join_length 44 (map member_text ps)) as Hj.
    change [44] with (str ",") in Hj.
    assert (H : (fold_right (fun kv n => S (size (snd kv) + n)) O ps
                 <= fold_right (fun p n => S (List.length p + n)) O
                      (map member_text ps))%nat).
    { clear Hj. induction ps as [|[k v] ps IH]; [simpl; lia|].
      inversion IHps as [|? ? He Hl]; subst. cbn [snd] in He.
      cbn [forallb snd] in Hjs. apply andb_true_iff in Hjs.
      destruct Hjs as [Hje Hjl].
      cbn [fold_right map snd]. specialize (He Hje). specialize (IH Hl Hjl).
      assert (List.length (text_of v) <= List.length (member_text (k, v)))%nat.
      { unfold member_text. cbn [fst snd]. rewrite !length_app. lia. }
      lia. }
    simpl List.length. lia.
Qed.

(** JSON.parse(JSON.stringify(v)) is [v] for every value that JSON text
    denotes. *)
Theorem parse_stringify v :
  well_formed v = true -> json_value v = true ->
  exists text, stringify v = Some text /\ parse text = Some v.
Proof.
  intros Hwf Hjs. exists (text_of v). split.
  - apply serialize_json_value. exact Hjs.
  - unfold parse.
    pose proof (parse_value_text v Hwf Hjs
                  (2 * List.length (text_of v) + 1)%nat [] ) as H.
    rewrite app_nil_r in H. rewrite H; [reflexivity| |reflexivity].
    pose proof (size_le_text v Hjs). lia.
Qed.

End JSONFacts.

(** ** The session file *)

(** C1, as the code has it: for a state reached by dispatching that holds
    only values JSON text denotes (no [undefined], NaN, infinity or -0), the
    text the export button writes parses, the parsed value is the state
    itself, and the import callback hands exactly that state to
    [loadState]. *)
Theorem session_round_trip reducer init w w' :
  reachable reducer init (state w) ->
  well_formed (state w) = true ->
  json_value (state w) = true ->
  exists text,
    fullStateJson w = Some text
    /\ JSON.parse text = Some (state w)
    /\ on_file_text reducer text w' = dispatch reducer (loadState (state w)) w'.
Proof.
  intros _ Hwf Hjs.
  destruct (JSONFacts.parse_stringify (state w) Hwf Hjs) as (text & Hs & Hp).
  exists text. split; [exact Hs|]. split; [exact Hp|].
  unfold on_file_text, catch. rewrite Hp. reflexivity.
Qed.

Lemma session_round_trip_witness :
  exists text,
    fullStateJson (world_with (spec_reducer initialState (loadTable sample_table)))
    = Some text
    /\ JSON.parse text = Some (spec_reducer initialState (loadTable sample_table))
    /\ on_file_text spec_reducer text empty_world
       = dispatch spec_reducer
           (loadState (spec_reducer initialState (loadTable sample_table)))
           empty_world.
Proof.
  apply (session_round_trip spec_reducer initialState
           (world_with (spec_reducer initialState (loadTable sample_table)))
           empty_world).
  - apply reach_dispatch. apply reach_initial.
  - vm_compute; reflexivity.
  - vm_compute; reflexivity.
Defined.

(** Counterexample to C1 as worded: the state reached by loading a table
    with a NaN cell is written with [null] in that cell, and what is read
    back is another state. *)
Lemma session_round_trip_fails :
  ~ (forall s,
       reachable spec_reducer initialState s ->
       exists text, JSON.stringify s = Some text /\ JSON.parse text = Some s).
Proof.
  intros H.
  destruct (H (spec_reducer initialState (loadTable nan_table)))
    as (text & Hs & Hp).
  - apply reach_dispatch. apply reach_initial.
  - vm_compute in Hs. injection Hs as <-. vm_compute in Hp. discriminate.
Qed.

(** ** JSON.parse returns or throws *)

Module JSONTotal.
Import JSON.

Lemma skip_ws_length s : (List.length (skip_ws s) <= List.length s)%nat.
Proof.
  induction s as [|c r IH]; simpl; [lia|].
  destruct (is_ws c); simpl; lia.
Qed.

Lemma skip_ws_cons_length s c r :
  skip_ws s = c :: r -> (S (List.length r) <= List.length s)%nat.
Proof.
  intros H. pose proof (skip_ws_length s) as L. rewrite H in L. exact L.
Qed.

Lemma parse_string_body_shorter_le n : forall s t rest,
  (List.length s <= n)%nat ->
  parse_string_body s = Some (t, rest) ->
  (List.length rest < List.length s)%nat.
Proof.
  induction n as [|n IH]; intros s t rest Hn H.
  - destruct s; [discriminate | simpl in Hn; lia].
  - destruct s as [|c r]; [discriminate|]. simpl in Hn.
    cbn [parse_string_body] in H.
    destruct (c =? 34); [injection H as _ <-; simpl; lia|].
    destruct (c =? 92).
    + destruct r as [|e r1]; [discriminate|].
      destruct (e =? 117).
      * destruct r1 as [|h1 [|h2 [|h3 [|h4 r2]]]]; try discriminate.
        destruct (unhex4 h1 h2 h3 h4); [|discriminate].
        destruct (parse_string_body r2) as [[u rest']|] eqn:E; [|discriminate].
        injection H as _ <-. apply IH in E; simpl in *; lia.
      * destruct (unescape e); [|discriminate].
        destruct (parse_string_body r1) as [[u rest']|] eqn:E; [|discriminate].
        injection H as _ <-. apply IH in E; simpl in *; lia.
    + destruct (c <? 32); [discriminate|].
      destruct (parse_string_body r) as [[u rest']|] eqn:E; [|discriminate].
      injection H as _ <-. apply IH in E; simpl in *; lia.
Qed.

Lemma parse_string_body_shorter s t rest :
  parse_string_body s = Some (t, rest) ->
  (List.length rest < List.length s)%nat.
Proof. apply (parse_string_body_shorter_le (List.length s)). lia. Qed.

Lemma take_digits_length s :
  (List.length (snd (take_digits s)) <= List.length s)%nat.
Proof.
  induction s as [|c r IH]; simpl; [lia|].
  destruct (unit_digit c); [|simpl; lia].
  destruct (take_digits r); simpl in *. lia.
Qed.

Lemma parse_int_part_shorter s ds rest :
  parse_int_part s = Some (ds, rest) -> (List.length rest < List.length s)%nat.
Proof.
  unfold parse_int_part. destruct s as [|c r]; [discriminate|].
  pose proof (take_digits_length r) as L.
  destruct (unit_digit c) as [d|]; [|discriminate].
  destruct (take_digits r) as [ds' rest'].
  destruct d; intros H; injection H as _ <-; simpl in *; lia.
Qed.

Lemma parse_frac_length s ds rest :
  parse_frac s = Some (ds, rest) -> (List.length rest <= List.length s)%nat.
Proof.
  unfold parse_frac. destruct s as [|c r]; [intros H; injection H as _ <-; lia|].
  pose proof (take_digits_length r) as L.
  destruct (c =? 46).
  - destruct (take_digits r) as [[|d ds'] rest']; [discriminate|].
    intros H; injection H as _ <-. simpl in *; lia.
  - intros H; injection H as _ <-. lia.
Qed.

Lemma parse_exp_length s e rest :
  parse_exp s = Some (e, rest) -> (List.length rest <= List.length s)%nat.
Proof.
  unfold parse_exp. destruct s as [|c r]; [intros H; injection H as _ <-; lia|].
  destruct ((c =? 101) || (c =? 69)); [|intros H; injection H as _ <-; lia].
  destruct r as [|c1 r'].
  - simpl. discriminate.
  - destruct (c1 =? 45); [|destruct (c1 =? 43)]; intros H;
      match type of H with
      | match take_digits ?r1 with _ => _ end = _ =>
          pose proof (take_digits_length r1) as L;
          destruct (take_digits r1) as [[|d ds] rest0]; [discriminate|];
          injection H as _ <-; simpl in *; lia
      end.
Qed.

Lemma parse_number_shorter s v rest :
  parse_number s = POk v rest -> (List.length rest < List.length s)%nat.
Proof.
  assert (Hu : forall neg s1 v rest,
             parse_unsigned neg s1 = POk v rest ->
             (List.length rest < List.length s1)%nat).
  { intros neg s1 v0 rest0. unfold parse_unsigned.
    destruct (parse_int_part s1) as [[int s2]|] eqn:E1; [|discriminate].
    destruct (parse_frac s2) as [[frac s3]|] eqn:E2; [|discriminate].
    destruct (parse_exp s3) as [[e s4]|] eqn:E3; [|discriminate].
    intros H; injection H as _ <-.
    apply parse_int_part_shorter in E1. apply parse_frac_length in E2.
    apply parse_exp_length in E3. lia. }
  unfold parse_number. destruct s as [|c r]; [discriminate|].
  destruct (c =? 45); intros H; apply Hu in H; simpl in *; lia.
Qed.

Lemma strip_prefix_length p s rest :
  strip_prefix p s = Some rest -> (List.length rest <= List.length s)%nat.
Proof.
  revert s; induction p as [|a p IH]; intros s; simpl.
  - intros H; injection H as <-; lia.
  - destruct s as [|b s']; [discriminate|].
    destruct (a =? b); [|discriminate]. intros H. apply IH in H. simpl; lia.
Qed.

Ltac break_match H :=
  repeat match type of H with
         | context [match ?x with _ => _ end] =>
             destruct x eqn:?; try discriminate H
         end.

Ltac shorter :=
  repeat match goal with
         | H : POk _ _ = POk _ _ |- _ => injection H as <- <-
         | H : parse_string_body _ = Some _ |- _ =>
             apply parse_string_body_shorter in H
         | H : parse_number _ = POk _ _ |- _ => apply parse_number_shorter in H
         | H : strip_prefix _ _ = Some _ |- _ => apply strip_prefix_length in H
         | H : skip_ws _ = _ :: _ |- _ => apply skip_ws_cons_length in H
         end.

(** Whatever a parsing function returns with, it has read something. *)
Lemma parse_shorter fuel :
  (forall s v rest, parse_value fuel s = POk v rest ->
                    (List.length rest < List.length s)%nat)
  /\ (forall acc s v rest, parse_elements fuel acc s = POk v rest ->
                           (List.length rest < List.length s)%nat)
  /\ (forall acc s v rest, parse_members fuel acc s = POk v rest ->
                           (List.length rest < List.length s)%nat).
Proof.
  induction fuel as [|f (IHv & IHe & IHm)]; [repeat split; discriminate|].
  split; [|split].
  - intros s v rest H. cbn [parse_value] in H.
    break_match H;
      repeat match goal with
             | H : parse_elements f _ _ = POk _ _ |- _ => apply IHe in H
             | H : parse_members f _ _ = POk _ _ |- _ => apply IHm in H
             end; shorter; simpl in *; lia.
  - intros acc s v rest H. cbn [parse_elements] in H.
    break_match H;
      repeat match goal with
             | H : parse_elements f _ _ = POk _ _ |- _ => apply IHe in H
             | H : parse_value f _ = POk _ _ |- _ => apply IHv in H
             end; shorter; simpl in *; lia.
  - intros acc s v rest H. cbn [parse_members] in H.
    break_match H;
      repeat match goal with
             | H : parse_members f _ _ = POk _ _ |- _ => apply IHm in H
             | H : parse_value f _ = POk _ _ |- _ => apply IHv in H
             end; shorter; simpl in *; lia.
Qed.

(** With a budget of twice the length of the text the parser never stops
    for want of budget: [parse] returns a value or throws a SyntaxError. *)
Lemma parse_enough fuel :
  (forall s, (2 * List.length s + 1 <= fuel)%nat -> parse_value fuel s <> PFuel)
  /\ (forall acc s, (2 * List.length s + 2 <= fuel)%nat ->
                    parse_elements fuel acc s <> PFuel)
  /\ (forall acc s, (2 * List.length s + 2 <= fuel)%nat ->
                    parse_members fuel acc s <> PFuel).
Proof.
  induction fuel as [|f (IHv & IHe & IHm)]; [repeat split; intros; lia|].
  destruct (parse_shorter f) as (Sv & Se & Sm).
  split; [|split].
  - intros s Hf H. cbn [parse_value] in H.
    break_match H;
      try (unfold parse_number, parse_unsigned in H; break_match H; fail);
      match type of H with
      | parse_elements f ?a ?x = PFuel => apply (IHe a x); [|exact H]
      | parse_members f ?a ?x = PFuel => apply (IHm a x); [|exact H]
      end; shorter; simpl in *; lia.
  - intros acc s Hf H. cbn [parse_elements] in H.
    destruct (parse_value f s) as [v rest| |] eqn:E; [|discriminate|].
    + apply Sv in E.
      break_match H.
      match type of H with
      | parse_elements f ?a ?x = PFuel => apply (IHe a x); [|exact H]
      end; shorter; simpl in *; lia.
    + apply (IHv s); [lia | exact E].
  - intros acc s Hf H. cbn [parse_members] in H.
    break_match H;
      match goal with
      | E : parse_value f ?x = PFuel |- _ => apply (IHv x); [|exact E]
      | _ =>
          match type of H with
          | parse_members f ?a ?x = PFuel => apply (IHm a x); [|exact H]
          end
      end;
      repeat match goal with
             | H : parse_value f _ = POk _ _ |- _ => apply Sv in H
             end; shorter; simpl in *; lia.
Qed.

Theorem parse_total text :
  parse_value (2 * List.length text + 1) text <> PFuel.
Proof. apply (proj1 (parse_enough _)). lia. Qed.

End JSONTotal.

(** ** The store of the spec keeps to values JSON text denotes *)

Module SpecStore.
Import JSON.

Lemma jsstring_eqb_sym a b : jsstring_eqb a b = jsstring_eqb b a.
Proof.
  destruct (jsstring_eqb a b) eqn:E.
  - apply jsstring_eqb_eq in E. subst. symmetry. apply jsstring_eqb_refl.
  - symmetry. apply jsstring_eqb_neq. apply jsstring_eqb_neq in E. congruence.
Qed.

Lemma distinct_keys_snoc ks k :
  distinct_keys ks = true ->
  existsb (fun a => jsstring_eqb a k) ks = false ->
  distinct_keys (ks ++ [k]) = true.
Proof.
  induction ks as [|a ks IH]; [reflexivity|].
  cbn [distinct_keys existsb List.app].
  rewrite andb_true_iff, negb_true_iff, orb_false_iff.
  intros [Ha Hd] [Hak Hk].
  rewrite existsb_app, Ha. cbn [existsb].
  rewrite jsstring_eqb_sym, Hak. cbn. apply IH; assumption.
Qed.

Lemma ordered_keys_snoc lo plain ks k :
  array_index k = None ->
  ordered_keys lo plain ks = true ->
  ordered_keys lo plain (ks ++ [k]) = true.
Proof.
  intros Hk. revert lo plain.
  induction ks as [|a ks IH]; intros lo plain H.
  - cbn. rewrite Hk. reflexivity.
  - cbn [ordered_keys List.app] in *.
    destruct (array_index a).
    + rewrite andb_true_iff in *. destruct H as [H1 H2]. split; auto.
    + auto.
Qed.

Lemma replace_prop_keys k v ps : map fst (replace_prop k v ps) = map fst ps.
Proof.
  induction ps as [|[a x] ps IH]; [reflexivity|].
  cbn [replace_prop]. destruct (jsstring_eqb a k); cbn [map fst]; congruence.
Qed.

Lemma replace_prop_forallb (P : value -> bool) k v ps :
  P v = true ->
  forallb (fun kv => P (snd kv)) ps = true ->
  forallb (fun kv => P (snd kv)) (replace_prop k v ps) = true.
Proof.
  intros Hv. induction ps as [|[a x] ps IH]; [reflexivity|].
  cbn [replace_prop forallb snd]. rewrite andb_true_iff. intros [Hx Hps].
  destruct (jsstring_eqb a k); cbn [forallb snd]; rewrite ?Hv, ?Hx, ?Hps; auto.
Qed.

Lemma create_plain_forallb (P : value -> bool) ps k v :
  array_index k = None ->
  P v = true ->
  forallb (fun kv => P (snd kv)) ps = true ->
  forallb (fun kv => P (snd kv)) (CreateDataProperty ps k v) = true.
Proof.
  intros Hk Hv Hps. unfold CreateDataProperty. rewrite Hk.
  destruct (has_key k ps).
  - apply replace_prop_forallb; assumption.
  - rewrite forallb_app, Hps. cbn. rewrite Hv. reflexivity.
Qed.

Lemma create_plain_well_formed ps k v :
  array_index k = None ->
  well_formed v = true ->
  well_formed (JObject ps) = true ->
  well_formed (JObject (CreateDataProperty ps k v)) = true.
Proof.
  intros Hk Hv. cbn [well_formed]. rewrite !andb_true_iff.
  intros [[Hd Ho] Hps]. split; [split|].
  - unfold CreateDataProperty. rewrite Hk.
    destruct (has_key k ps) eqn:E.
    + rewrite replace_prop_keys. exact Hd.
    + rewrite map_app. apply distinct_keys_snoc; [exact Hd|].
      rewrite JSONFacts.existsb_map_fst. exact E.
  - unfold CreateDataProperty. rewrite Hk.
    destruct (has_key k ps).
    + rewrite replace_prop_keys. exact Ho.
    + rewrite map_app. apply ordered_keys_snoc; assumption.
  - apply create_plain_forallb; assumption.
Qed.

Lemma put_table_forallb (P : value -> bool) t ts :
  P t = true -> forallb P ts = true -> forallb P (put_table t ts) = true.
Proof.
  intros Ht. induction ts as [|u ts IH]; cbn [put_table forallb].
  - rewrite Ht. reflexivity.
  - rewrite andb_true_iff. intros [Hu Hts].
    destruct (same_id u t); cbn [forallb]; rewrite ?Ht, ?Hu, ?Hts; auto.
Qed.

Lemma get_prop_forallb (P : value -> bool) ps k l :
  forallb (fun kv => P (snd kv)) ps = true ->
  get_prop ps k = JArray l -> P (JArray l) = true.
Proof.
  intros Hps. unfold get_prop.
  destruct (find _ ps) as [kv|] eqn:E; [|discriminate].
  apply find_some in E. destruct E as [Hin _].
  rewrite forallb_forall in Hps. intros <-. exact (Hps kv Hin).
Qed.

Lemma spec_reducer_well_formed s a :
  well_formed s = true -> json_payload a = true ->
  well_formed (spec_reducer s a) = true.
Proof.
  intros Hs Ha. destruct s as [| | | | | |ps]; try exact Hs.
  destruct a as [snap|t|m| |t|]; cbn [spec_reducer]; try exact Hs;
    try (cbn [json_payload] in Ha; apply andb_true_iff in Ha; destruct Ha as [Ha _]).
  - destruct (valid_state snap); assumption.
  - destruct (get_prop ps (str "tables")) as [| | | | |ts|] eqn:E; try exact Hs.
    apply create_plain_well_formed; [reflexivity| |exact Hs].
    cbn [well_formed]. apply put_table_forallb; [exact Ha|].
    pose proof Hs as Hs'. cbn [well_formed] in Hs'.
    rewrite !andb_true_iff in Hs'. destruct Hs' as [_ Hps].
    exact (get_prop_forallb well_formed ps _ ts Hps E).
  - destruct (is_view_mode m); [|exact Hs].
    apply create_plain_well_formed; [reflexivity|reflexivity|exact Hs].
  - reflexivity.
Qed.

Lemma spec_reducer_json_value s a :
  json_value s = true -> json_payload a = true ->
  json_value (spec_reducer s a) = true.
Proof.
  intros Hs Ha. destruct s as [| | | | | |ps]; try exact Hs.
  destruct a as [snap|t|m| |t|]; cbn [spec_reducer]; try exact Hs;
    try (cbn [json_payload] in Ha; apply andb_true_iff in Ha; destruct Ha as [_ Ha]).
  - destruct (valid_state snap); assumption.
  - destruct (get_prop ps (str "tables")) as [| | | | |ts|] eqn:E; try exact Hs.
    cbn [json_value] in *.
    apply create_plain_forallb; [reflexivity| |exact Hs].
    cbn [json_value]. apply put_table_forallb; [exact Ha|].
    exact (get_prop_forallb json_value ps _ ts Hs E).
  - destruct (is_view_mode m); [|exact Hs].
    cbn [json_value] in *.
    apply create_plain_forallb; [reflexivity|reflexivity|exact Hs].
  - reflexivity.
Qed.

Lemma fold_reducer_reachable reducer init actions :
  reachable reducer init (fold_left reducer actions init).
Proof.
  assert (H : forall s, reachable reducer init s ->
                        reachable reducer init (fold_left reducer actions s)).
  { induction actions as [|a l IH]; intros s Hs; [exact Hs|].
    cbn [fold_left]. apply IH. apply reach_dispatch. exact Hs. }
  apply H. apply reach_initial.
Qed.

(** In the store of the spec every state reached by actions whose payloads
    JSON text denotes is written and read back as itself. *)
Theorem spec_store_round_trip actions :
  forallb json_payload actions = true ->
  let s := fold_left spec_reducer actions initialState in
  reachable spec_reducer initialState s
  /\ exists text, JSON.stringify s = Some text /\ JSON.parse text = Some s.
Proof.
  intros Ha s. split; [apply fold_reducer_reachable|].
  apply JSONFacts.parse_stringify; subst s.
  - assert (H : forall s0, well_formed s0 = true ->
                           well_formed (fold_left spec_reducer actions s0) = true).
    { induction actions as [|a l IH]; intros s0 Hs0; [exact Hs0|].
      cbn [forallb] in Ha. apply andb_true_iff in Ha. destruct Ha as [Ha Hl].
      cbn [fold_left]. apply IH; [exact Hl|].
      apply spec_reducer_well_formed; assumption. }
    apply H. reflexivity.
  - assert (H : forall s0, json_value s0 = true ->
                           json_value (fold_left spec_reducer actions s0) = true).
    { induction actions as [|a l IH]; intros s0 Hs0; [exact Hs0|].
      cbn [forallb] in Ha. apply andb_true_iff in Ha. destruct Ha as [Ha Hl].
      cbn [fold_left]. apply IH; [exact Hl|].
      apply spec_reducer_json_value; assumption. }
    apply H. reflexivity.
Qed.

End SpecStore.

(** * Further properties of App.tsx *)

(** ** The import button: every outcome of the reads *)

Module ImportFacts.

Lemma on_file_text_cases reducer text w :
  on_file_text reducer text w
  = match JSON.parse text with
    | Some v => dispatch reducer (loadState v) w
    | None => console_error (str "Failed to parse state file:") w
    end.
Proof. unfold on_file_text, catch. destruct (JSON.parse text); reflexivity. Qed.

Lemma settle_reads_effect reducer fs w :
  let w' := after (settle_reads reducer fs) w in
  dispatched w' = dispatched w ++ loaded fs
  /\ state w' = fold_left reducer (loaded fs) (state w)
  /\ console w' = console w ++ repeat (str "Failed to parse state file:") (failures fs)
  /\ (userInfo w', popupConfig w', appConfig w', inputValue w')
     = (userInfo w, popupConfig w, appConfig w, inputValue w)
  /\ bridge_part w' = bridge_part w.
Proof.
  revert w. induction fs as [|[[text|]] fs IH]; intros w.
  - cbn. rewrite !app_nil_r. auto.
  - cbn [settle_reads]. unfold after, bind. rewrite on_file_text_cases.
    unfold loaded, failures in *. cbn [flat_map filter].
    destruct (JSON.parse text) as [v|].
    + cbn [dispatch fst snd]. specialize (IH (set_state (reducer (state w) (loadState v)) (loadState v) w)).
      unfold after in IH. destruct IH as (H1 & H2 & H3 & H4 & H5).
      rewrite H1, H2, H3, H4, H5. cbn. rewrite <- app_assoc. auto.
    + cbn [console_error fst snd].
      match goal with
      | |- context [settle_reads reducer fs ?w0] => specialize (IH w0)
      end.
      unfold after in IH. destruct IH as (H1 & H2 & H3 & H4 & H5).
      rewrite H1, H2, H3, H4, H5. cbn. rewrite <- app_assoc. auto.
  - cbn [settle_reads]. unfold loaded, failures in *. cbn [flat_map filter].
    apply IH.
Qed.

End ImportFacts.


(** ** JSON: what the text of any value denotes *)

Module AsJson.
Import JSON.

Lemma serialize_defined e :
  e <> JUndefined -> SerializeJSONProperty e = Some (text_of e).
Proof.
  unfold text_of. destruct e as [| |[]| | | |]; try reflexivity. contradiction.
Qed.

Lemma as_json_defined e : as_json e <> JUndefined.
Proof. destruct e as [| | |[| |neg [|d r] n]| | |]; discriminate. Qed.

Lemma undefined_or_not e : e = JUndefined \/ e <> JUndefined.
Proof. destruct e; [left; reflexivity | right; discriminate ..]. Qed.

Lemma kept_property (k : jsstring) e :
  e <> JUndefined ->
  match e with
  | JUndefined => []
  | _ => [(k, as_json e)]
  end = [(k, as_json e)].
Proof. destruct e; [contradiction | reflexivity ..]. Qed.

Lemma text_of_as_json v : text_of (as_json v) = text_of v.
Proof.
  induction v as [| |b|x|s|l IHl|ps IHps] using value_ind'; try reflexivity.
  - destruct x as [| |neg [|d r] n]; reflexivity.
  - cbn [as_json]. rewrite !JSONFacts.text_of_array. do 3 f_equal.
    rewrite map_map. apply map_ext_Forall. exact IHl.
  - unfold text_of. cbn [as_json SerializeJSONProperty].
    match goal with
    | |- context [flat_map ?F (flat_map ?g ps)] =>
        assert (E : flat_map F (flat_map g ps) = flat_map F ps)
    end; [|rewrite E; reflexivity].
    induction ps as [|[k e] ps IH]; [reflexivity|].
    inversion IHps as [|? ? He Hps]; subst. cbn [snd] in He.
    cbn [flat_map fst snd]. rewrite flat_map_app, (IH Hps).
    destruct (undefined_or_not e) as [-> | Hne]; [reflexivity|].
    rewrite (kept_property k e Hne). cbn [List.app flat_map fst snd].
    rewrite (serialize_defined _ (as_json_defined _)), He.
    rewrite (serialize_defined _ Hne). reflexivity.
Qed.

Lemma json_value_as_json v : json_value (as_json v) = true.
Proof.
  induction v as [| |b|x|s|l IHl|ps IHps] using value_ind'; try reflexivity.
  - destruct x as [| |neg [|d r] n]; reflexivity.
  - cbn [as_json json_value].
    induction IHl as [|e l He _ IH]; [reflexivity|].
    cbn [map forallb]. rewrite He, IH. reflexivity.
  - cbn [as_json json_value].
    induction ps as [|[k e] ps IH]; [reflexivity|].
    inversion IHps as [|? ? He Hps]; subst. cbn [snd] in He.
    cbn [flat_map snd fst]. rewrite forallb_app, (IH Hps), andb_true_r.
    destruct e; try reflexivity; cbn [forallb snd]; rewrite He; reflexivity.
Qed.

Lemma existsb_kept (p : jsstring -> bool) (ps : list (jsstring * value)) :
  existsb p (map fst (flat_map (fun kv => match snd kv with
                                          | JUndefined => []
                                          | _ => [(fst kv, as_json (snd kv))]
                                          end) ps)) = true ->
  existsb p (map fst ps) = true.
Proof.
  induction ps as [|[k e] ps IH]; [auto|].
  cbn [flat_map fst snd map existsb]. rewrite map_app, existsb_app.
  intros H. apply orb_true_iff in H. destruct H as [H|H].
  - destruct e; cbn in H; try discriminate;
      rewrite orb_false_r in H; rewrite H; reflexivity.
  - rewrite (IH H). apply orb_true_r.
Qed.

Lemma ordered_keys_weaken ks : forall lo plain lo' plain',
  ordered_keys lo' plain' ks = true ->
  (plain = true -> plain' = true) ->
  (forall j, lo = Some j -> exists j', lo' = Some j' /\ j <= j') ->
  ordered_keys lo plain ks = true.
Proof.
  induction ks as [|k ks IH]; intros lo plain lo' plain' H Hp Hlo; [reflexivity|].
  cbn [ordered_keys] in *. destruct (array_index k) as [i|].
  - rewrite !andb_true_iff, negb_true_iff in *. destruct H as [[H1 H2] H3].
    split; [split|].
    + destruct plain; [rewrite Hp in H1 by reflexivity; discriminate|reflexivity].
    + destruct lo as [j|]; [|reflexivity].
      destruct (Hlo j eq_refl) as (j' & -> & Hj). apply N.ltb_lt in H2.
      apply N.ltb_lt. lia.
    + exact H3.
  - apply (IH lo true lo' true H); auto.
Qed.

Lemma well_formed_as_json v : well_formed v = true -> well_formed (as_json v) = true.
Proof.
  induction v as [| |b|x|s|l IHl|ps IHps] using value_ind'; intros Hwf;
    try reflexivity.
  - destruct x as [| |neg [|d r] n]; try reflexivity; exact Hwf.
  - cbn [as_json well_formed] in *.
    induction IHl as [|e l He _ IH]; [reflexivity|].
    cbn [map forallb] in *. apply andb_true_iff in Hwf. destruct Hwf as [H1 H2].
    rewrite (He H1), (IH H2). reflexivity.
  - cbn [as_json well_formed] in *. rewrite !andb_true_iff in *.
    destruct Hwf as [[Hd Ho] Hall].
    set (g := fun kv : jsstring * value =>
                match snd kv with
                | JUndefined => []
                | _ => [(fst kv, as_json (snd kv))]
                end).
    split; [split|].
    + clear Ho Hall IHps. induction ps as [|[k e] ps IH]; [reflexivity|].
      cbn [map fst distinct_keys] in Hd. apply andb_true_iff in Hd.
      destruct Hd as [Hk Hd]. specialize (IH Hd).
      assert (Hkeep : distinct_keys (k :: map fst (flat_map g ps)) = true).
      { cbn [distinct_keys]. rewrite IH, andb_true_r.
        apply negb_true_iff. apply negb_true_iff in Hk.
        destruct (existsb _ (map fst (flat_map g ps))) eqn:E; [|reflexivity].
        apply existsb_kept in E. congruence. }
      cbn [flat_map]. unfold g at 1. cbn [fst snd].
      destruct e; try exact Hkeep. exact IH.
    + clear Hd Hall IHps. revert Ho. generalize (@None N), false.
      induction ps as [|[k e] ps IH]; intros lo plain Ho; [reflexivity|].
      cbn [map fst ordered_keys] in Ho.
      assert (Hkeep : ordered_keys lo plain (k :: map fst (flat_map g ps)) = true).
      { cbn [ordered_keys]. destruct (array_index k) as [i|].
        - rewrite andb_true_iff in *. destruct Ho as [H1 H2]. split; auto.
        - auto. }
      assert (Hdrop : ordered_keys lo plain (map fst (flat_map g ps)) = true).
      { destruct (array_index k) as [i|].
        - rewrite !andb_true_iff, negb_true_iff in Ho. destruct Ho as [[H1 H2] H3].
          subst plain. apply IH in H3.
          apply (ordered_keys_weaken _ lo false (Some i) false H3); [auto|].
          intros j ->. exists i. split; [reflexivity|]. apply N.ltb_lt in H2. lia.
        - apply IH in Ho.
          apply (ordered_keys_weaken _ lo plain lo true Ho); [auto|].
          intros j ->. exists j. split; [reflexivity|lia]. }
      cbn [flat_map]. unfold g at 1. cbn [fst snd].
      destruct e; try exact Hkeep. exact Hdrop.
    + clear Hd Ho. induction ps as [|[k e] ps IH]; [reflexivity|].
      inversion IHps as [|? ? He Hps]; subst. cbn [snd] in He.
      cbn [forallb snd] in Hall. apply andb_true_iff in Hall.
      destruct Hall as [Hwe Hall]. specialize (IH Hps Hall).
      cbn [flat_map]. rewrite forallb_app, IH, andb_true_r.
      unfold g. cbn [fst snd].
      destruct e; try reflexivity; cbn [forallb snd]; rewrite (He Hwe); reflexivity.
Qed.

Lemma as_json_fixed v : json_value v = true -> as_json v = v.
Proof.
  induction v as [| |b|x|s|l IHl|ps IHps] using value_ind'; intros H;
    try reflexivity; try discriminate.
  - destruct x as [| |neg [|d r] n]; try discriminate; [|reflexivity].
    destruct neg; [discriminate | reflexivity].
  - cbn [as_json json_value] in *. f_equal.
    rewrite <- (map_id l) at 2. apply map_ext_Forall.
    rewrite Forall_forall in *. rewrite forallb_forall in H. auto.
  - cbn [as_json json_value] in *. f_equal.
    induction ps as [|[k e] ps IH]; [reflexivity|].
    inversion IHps as [|? ? He Hps]; subst. cbn [snd] in He.
    cbn [forallb snd] in H. apply andb_true_iff in H. destruct H as [Hje Hjs].
    cbn [flat_map fst snd]. rewrite (IH Hps Hjs), (He Hje).
    destruct e; try reflexivity. discriminate.
Qed.

End AsJson.

(** X2: the text the export button writes for a state tree always parses:
    whatever the tree holds, the import callback given that text dispatches
    [loadState] with the tree in which what JSON cannot write has become
    [null] (or is left out, for a property) and -0 has become 0; it never
    ends in the [catch] block. *)
Theorem export_then_import reducer iso w w' :
  well_formed (state w) = true ->
  state w <> JUndefined ->
  JSON.parse (content (export_click iso w)) = Some (as_json (state w))
  /\ on_file_text reducer (content (export_click iso w)) w'
     = dispatch reducer (loadState (as_json (state w))) w'.
Proof.
  intros Hwf Hdef.
  assert (Hp : JSON.parse (content (export_click iso w)) = Some (as_json (state w))).
  { unfold export_click, fullStateJson, JSON.stringify. cbn [content].
    rewrite (AsJson.serialize_defined _ Hdef). cbn [blob_text].
    destruct (JSONFacts.parse_stringify (as_json (state w))
                (AsJson.well_formed_as_json _ Hwf) (AsJson.json_value_as_json _))
      as (text & Hs & Hp).
    unfold JSON.stringify in Hs.
    rewrite (AsJson.serialize_defined _ (AsJson.as_json_defined _)) in Hs.
    injection Hs as <-. rewrite AsJson.text_of_as_json in Hp. exact Hp. }
  split; [exact Hp|].
  rewrite ImportFacts.on_file_text_cases, Hp. reflexivity.
Qed.

Lemma export_then_import_witness :
  JSON.parse (content (export_click (str "2026-01-01T00:00:00.000Z")
                         (world_with (spec_reducer initialState (loadTable nan_table)))))
  = Some (as_json (spec_reducer initialState (loadTable nan_table))).
Proof.
  apply (export_then_import spec_reducer (str "2026-01-01T00:00:00.000Z")
           (world_with (spec_reducer initialState (loadTable nan_table)))
           empty_world).
  - vm_compute; reflexivity.
  - discriminate.
Defined.

(** X3: exporting what was imported from an exported file writes the same
    text again: the text of a state tree and the text of the tree read back
    from it are equal, and reading back a second time changes nothing. *)
Theorem export_import_export v :
  v <> JUndefined ->
  JSON.stringify (as_json v) = JSON.stringify v
  /\ as_json (as_json v) = as_json v.
Proof.
  intros Hdef. split.
  - unfold JSON.stringify.
    rewrite (AsJson.serialize_defined _ (AsJson.as_json_defined _)).
    rewrite (AsJson.serialize_defined _ Hdef).
    rewrite AsJson.text_of_as_json. reflexivity.
  - apply AsJson.as_json_fixed. apply AsJson.json_value_as_json.
Qed.

Lemma export_import_export_witness :
  JSON.stringify (as_json (spec_reducer initialState (loadTable nan_table)))
  = JSON.stringify (spec_reducer initialState (loadTable nan_table)).
Proof.
  apply (export_import_export (spec_reducer initialState (loadTable nan_table))).
  discriminate.
Defined.

(** ** stringAvatar: which initials are shown *)

Module AvatarFacts.

Lemma Get_first_unit w :
  Get (JString w) (str "0")
  = Normal (match w with c :: _ => JString [c] | [] => JUndefined end).
Proof. unfold Get. rewrite array_index_zero. destruct w; reflexivity. Qed.

Lemma ToString_first_unit w :
  ToString (match w with c :: _ => JString [c] | [] => JUndefined end)
  = Normal (initial w).
Proof. destruct w; reflexivity. Qed.

Lemma nth_pred_last {A} (l : list A) d : nth (List.length l - 1) l d = last l d.
Proof.
  induction l as [|a l IH]; [reflexivity|].
  destruct l as [|b l']; [reflexivity|].
  replace (List.length (a :: b :: l') - 1)%nat
    with (S (List.length (b :: l') - 1)) by (simpl; lia).
  change (last (a :: b :: l') d) with (last (b :: l') d).
  rewrite <- IH. reflexivity.
Qed.

Lemma last_map_JString ws :
  ws <> [] -> last (map JString ws) JUndefined = JString (last ws []).
Proof.
  induction ws as [|w ws IH]; [contradiction|]. intros _.
  destruct ws as [|w2 ws']; [reflexivity|].
  cbn [map last] in *. apply IH. discriminate.
Qed.

(** The display name of a string, word by word. *)
Lemma initials_of_words s :
  initials (JString s)
  = Normal (JString (initial (hd [] (split_on 32 s))
                     ++ match split_on 32 s with
                        | _ :: _ :: _ => initial (last (split_on 32 s) [])
                        | _ => []
                        end)).
Proof.
  unfold initials, call_split.
  pose proof (split_on_nonempty 32 s) as Hne.
  destruct (split_on 32 s) as [|w0 ws] eqn:E; [contradiction|].
  rewrite nth_pred_last, last_map_JString by discriminate.
  cbn [map nth hd]. rewrite Get_first_unit, ToString_first_unit.
  destruct ws as [|w1 ws'].
  - reflexivity.
  - cbn [map List.length]. cbn [Nat.ltb Nat.leb].
    rewrite Get_first_unit, ToString_first_unit. reflexivity.
Qed.

Lemma split_on_head sep c r :
  c <> sep -> exists w ws, split_on sep (c :: r) = (c :: w) :: ws.
Proof.
  intros H. cbn [split_on]. apply N.eqb_neq in H. rewrite H.
  destruct (split_on sep r); eauto.
Qed.

Lemma split_on_space_head sep r :
  exists ws, split_on sep (sep :: r) = [] :: ws /\ ws <> [].
Proof.
  cbn [split_on]. rewrite N.eqb_refl. eexists; split; [reflexivity|].
  apply split_on_nonempty.
Qed.

Lemma split_on_no_sep sep s :
  existsb (N.eqb sep) s = false -> split_on sep s = [s].
Proof.
  induction s as [|c r IH]; [reflexivity|].
  cbn [existsb split_on]. rewrite orb_false_iff. intros [Hc Hr].
  rewrite N.eqb_sym, Hc, (IH Hr). reflexivity.
Qed.

Lemma split_on_has_sep sep s :
  existsb (N.eqb sep) s = true ->
  exists w0 w1 ws, split_on sep s = w0 :: w1 :: ws.
Proof.
  induction s as [|c r IH]; [discriminate|].
  cbn [existsb split_on]. rewrite N.eqb_sym.
  destruct (N.eqb_spec c sep).
  - intros _. pose proof (split_on_nonempty sep r).
    destruct (split_on sep r) as [|w1 ws]; [contradiction|]. eauto.
  - cbn [orb]. intros H. destruct (IH H) as (w0 & w1 & ws & ->). eauto.
Qed.

Lemma last_split_on_nonempty sep s :
  s <> [] -> last s sep <> sep -> last (split_on sep s) [] <> [].
Proof.
  induction s as [|c r IH]; [contradiction|]. intros _ Hl.
  destruct r as [|c2 r'].
  - cbn [last] in Hl. cbn [split_on]. apply N.eqb_neq in Hl. rewrite Hl.
    discriminate.
  - assert (Hr : last (split_on sep (c2 :: r')) [] <> [])
      by (apply IH; [discriminate | exact Hl]).
    pose proof (split_on_nonempty sep (c2 :: r')) as Hne.
    cbn [split_on] in *. destruct (c =? sep).
    + destruct (if c2 =? sep then _ else _) eqn:E; [contradiction|].
      exact Hr.
    + destruct (if c2 =? sep then _ else _) as [|w ws] eqn:E; [contradiction|].
      destruct ws; [|exact Hr]. cbn. discriminate.
Qed.

End AvatarFacts.

(** X4: for a name that is not empty and neither starts nor ends with a
    space, the avatar shows the first code unit of the name, followed, when
    the name has a space, by the first code unit of its last word: one or
    two code units, never the text of [undefined]. *)
Theorem stringAvatar_initials c r :
  c <> 32 -> last (c :: r) 32 <> 32 ->
  exists c2 w,
    last (split_on 32 (c :: r)) [] = c2 :: w
    /\ stringAvatar (JString (c :: r))
       = Normal (avatar (JString (if existsb (N.eqb 32) (c :: r)
                                  then [c; c2] else [c]))).
Proof.
  intros Hc Hl.
  pose proof (AvatarFacts.last_split_on_nonempty 32 (c :: r)
                ltac:(discriminate) Hl) as Hlast.
  destruct (last (split_on 32 (c :: r)) []) as [|c2 w] eqn:El; [contradiction|].
  exists c2, w. split; [reflexivity|].
  unfold stringAvatar. rewrite AvatarFacts.initials_of_words, El.
  destruct (AvatarFacts.split_on_head 32 c r Hc) as (w0 & ws & Es).
  destruct (existsb (N.eqb 32) (c :: r)) eqn:Ex.
  - destruct (AvatarFacts.split_on_has_sep 32 _ Ex) as (a & b & l & Eab).
    rewrite Eab in *. injection Es as -> _. reflexivity.
  - rewrite (AvatarFacts.split_on_no_sep 32 _ Ex). reflexivity.
Qed.

Lemma stringAvatar_initials_witness :
  exists c2 w,
    last (split_on 32 (str "Ada King Lovelace")) [] = c2 :: w
    /\ stringAvatar (JString (str "Ada King Lovelace"))
       = Normal (avatar (JString (if existsb (N.eqb 32) (str "Ada King Lovelace")
                                  then [ch "A"; c2] else [ch "A"]))).
Proof.
  apply (stringAvatar_initials (ch "A") (str "da King Lovelace")); discriminate.
Defined.

(** X5: for the empty name and for a name that starts with a space the
    first word is empty, and the avatar shows the text "undefined" where its
    initial would be; a name that ends with a space shows it in place of the
    last initial. *)
Theorem stringAvatar_undefined_initial s :
  ((s = [] \/ exists r, s = 32 :: r) ->
   exists t, stringAvatar (JString s) = Normal (avatar (JString (str "undefined" ++ t))))
  /\ (forall r, s = r ++ [32] ->
      exists t, stringAvatar (JString s) = Normal (avatar (JString (t ++ str "undefined")))).
Proof.
  split.
  - intros H. unfold stringAvatar. rewrite AvatarFacts.initials_of_words.
    destruct H as [-> | [r ->]].
    + exists []. reflexivity.
    + destruct (AvatarFacts.split_on_space_head 32 r) as (ws & -> & Hws).
      eexists. reflexivity.
  - intros r ->. unfold stringAvatar. rewrite AvatarFacts.initials_of_words.
    assert (H : exists w0 ws, split_on 32 (r ++ [32]) = w0 :: ws ++ [[]]).
    { clear. induction r as [|c r (w0 & ws & IH)].
      - exists [], []. reflexivity.
      - cbn [List.app split_on]. rewrite IH. destruct (c =? 32).
        + exists [], (w0 :: ws). reflexivity.
        + exists (c :: w0), ws. reflexivity. }
    destruct H as (w0 & ws & ->).
    unfold jsstring in *.
    assert (Hl : last (w0 :: ws ++ [[]]) [] = @nil N)
      by (apply (last_last (w0 :: ws))).
    cbn [hd].
    destruct ws as [|w1 ws']; cbn [List.app] in *; rewrite Hl;
      eexists; reflexivity.
Qed.

Lemma stringAvatar_undefined_initial_witness :
  exists t, stringAvatar (JString (str " Ada"))
            = Normal (avatar (JString (str "undefined" ++ t))).
Proof.
  apply (proj1 (stringAvatar_undefined_initial (str " Ada"))).
  right. exists (str "Ada"). reflexivity.
Defined.

(** X6: splitting a name at its spaces loses nothing: the words joined by
    single spaces are the name again, no word holds a space, and there is one
    word more than there are spaces. *)
Theorem split_on_join sep s :
  JSON.join [sep] (split_on sep s) = s
  /\ Forall (fun w => ~ In sep w) (split_on sep s)
  /\ List.length (split_on sep s) = S (count_occ N.eq_dec s sep).
Proof.
  induction s as [|c r (IH1 & IH2 & IH3)].
  - repeat split. constructor; [intros []|constructor].
  - pose proof (split_on_nonempty sep r) as Hne.
    cbn [split_on count_occ]. destruct (N.eqb_spec c sep) as [->|Hc].
    + destruct (N.eq_dec sep sep) as [_|]; [|contradiction].
      split; [|split].
      * destruct (split_on sep r) as [|w ws]; [contradiction|].
        change (JSON.join [sep] ([] :: w :: ws))
          with (sep :: JSON.join [sep] (w :: ws)).
        rewrite IH1. reflexivity.
      * constructor; [intros []|exact IH2].
      * cbn [List.length]. rewrite IH3. reflexivity.
    + destruct (N.eq_dec c sep) as [|_]; [contradiction|].
      destruct (split_on sep r) as [|w ws]; [contradiction|].
      split; [|split].
      * rewrite <- IH1. destruct ws; reflexivity.
      * inversion IH2 as [|? ? Hw Hws]; subst. constructor; [|exact Hws].
        intros [E|E]; [congruence | exact (Hw E)].
      * exact IH3.
Qed.

(** ** The auth probe: when the identity is set, and to what *)

Module AuthFacts.

Lemma find_claim_plain claims :
  forallb plain_claim claims = true ->
  find_claim claims
  = Normal (match find is_name_claim claims with
            | Some item => item
            | None => JUndefined
            end).
Proof.
  induction claims as [|item claims IH]; [reflexivity|].
  cbn [forallb find_claim find]. rewrite andb_true_iff. intros [Hp Hc].
  destruct item as [| | | | | |qs]; try discriminate.
  cbn [Get plain_claim is_name_claim] in *.
  destruct (get_prop qs (str "typ")) as [| |b|x|t|l|ps]; try discriminate;
    cbn [loosely_equals_word]; try (apply IH; exact Hc).
  destruct (jsstring_eqb t (str "name")); [reflexivity | apply IH; exact Hc].
Qed.

Lemma find_is_name_claim claims item :
  find is_name_claim claims = Some item -> exists qs, item = JObject qs.
Proof.
  intros H. apply find_some in H. destruct H as [_ H].
  destruct item; try discriminate. eauto.
Qed.

End AuthFacts.

(** X7: when the reply is a non-empty array whose first element is an
    object with an array [user_claims] of objects whose [typ] is absent or a
    primitive, the identity is set: the user id is the element's [user_id]
    ([undefined] when it has none) and the name is the [val] of the first
    claim whose [typ] is "name", or the empty string when there is no such
    claim or its [val] is absent or falsy.  The other elements of the reply
    play no part. *)
Theorem auth_probe_sets_identity body ps rest claims w :
  JSON.parse body = Some (JArray (JObject ps :: rest)) ->
  get_prop ps (str "user_claims") = JArray claims ->
  forallb plain_claim claims = true ->
  fst (auth_probe (Response body) w) = Normal tt
  /\ after (auth_probe (Response body)) w
     = after (setUserInfo {| name := claimed_name claims;
                             userId := get_prop ps (str "user_id") |}) w.
Proof.
  intros Hp Hc Hplain.
  unfold after, auth_probe, catch, bind, fetch, response_json, ret.
  rewrite Hp. cbn [auth_then bind lift Get]. unfold bind, lift.
  rewrite Hc. cbn [call_find]. rewrite (AuthFacts.find_claim_plain _ Hplain).
  unfold claimed_name.
  destruct (find is_name_claim claims) as [item|] eqn:E.
  - destruct (AuthFacts.find_is_name_claim _ _ E) as (qs & ->).
    cbn [Get]. split; reflexivity.
  - split; reflexivity.
Qed.

Lemma auth_probe_sets_identity_witness :
  userInfo (after (auth_probe (Response auth_body)) empty_world)
  = userInfo (after (setUserInfo {| name := JString (str "Ada");
                                    userId := JString (str "ada@example.org") |})
                empty_world).
Proof.
  refine (f_equal userInfo
            (proj2 (auth_probe_sets_identity auth_body
                      [(str "user_id", JString (str "ada@example.org"));
                       (str "user_claims",
                        JArray [JObject [(str "typ", JString (str "email"));
                                         (str "val", JString (str "ada@example.org"))];
                                JObject [(str "typ", JString (str "name"));
                                         (str "val", JString (str "Ada"))]])]
                      []
                      [JObject [(str "typ", JString (str "email"));
                                (str "val", JString (str "ada@example.org"))];
                       JObject [(str "typ", JString (str "name"));
                                (str "val", JString (str "Ada"))]]
                      empty_world _ _ _)));
    vm_compute; reflexivity.
Defined.

(** X8: a non-empty array reply is not enough: when the first element has
    no [user_claims], or one that is not an array, the TypeError raised on
    the way is swallowed by the chain's [catch], the probe ends normally and
    the world, the absent identity included, is as it was. *)
Theorem auth_probe_without_claims body authInfo rest w :
  JSON.parse body = Some (JArray (authInfo :: rest)) ->
  (forall l, Get authInfo (str "user_claims") <> Normal (JArray l)) ->
  fst (auth_probe (Response body) w) = Normal tt
  /\ after (auth_probe (Response body)) w = w.
Proof.
  intros Hp Hno.
  unfold after, auth_probe, catch, bind, fetch, response_json, ret.
  rewrite Hp.
  destruct (auth_then_cases (JArray (authInfo :: rest)) w)
    as [[_ Hna]|[[e He]|(a & r & claims & found & val & uid
                          & E & H1 & H2 & _)]].
  - exfalso. exact (Hna authInfo rest eq_refl).
  - rewrite He. split; reflexivity.
  - injection E as <- <-. exfalso.
    destruct claims; try discriminate. exact (Hno _ H1).
Qed.

Lemma auth_probe_without_claims_witness :
  after (auth_probe (Response (str "[{}]"))) empty_world = empty_world.
Proof.
  apply (auth_probe_without_claims (str "[{}]") (JObject []) [] empty_world).
  - vm_compute; reflexivity.
  - intros l H. vm_compute in H. discriminate.
Defined.

(** ** The setAppConfig callback and the store *)

(** X9: whatever the configuration, even one on which the callback throws,
    the [setAppConfig] callback leaves the store alone: nothing is
    dispatched and the state tree, the identity and the bridge are as they
    were; [assignAppConfig] has been given the configuration in every
    case. *)
Theorem setAppConfig_callback_leaves_store assignAppConfig config w :
  let w' := after (setAppConfig_callback assignAppConfig config) w in
  (state w', dispatched w', userInfo w') = (state w, dispatched w, userInfo w)
  /\ bridge_part w' = bridge_part w
  /\ appConfig w' = assignAppConfig config (appConfig w)
  /\ (popupConfig w' = popupConfig w
      \/ Get config (str "popupConfig") = Normal (popupConfig w')).
Proof.
  unfold after, setAppConfig_callback, bind, lift. cbn [fst snd].
  destruct (Get config (str "popupConfig")) as [pc|e]; cbn [fst snd].
  - destruct (truthy pc); cbn; auto.
  - cbn; auto.
Qed.

(** ** ResetDialog *)

Module ResetFacts.

Lemma ResetDialog_run_effect reducer evs : forall open w,
  exists n,
    dispatched (after (ResetDialog_run reducer evs open) w)
    = dispatched w ++ repeat resetState n
    /\ state (after (ResetDialog_run reducer evs open) w)
       = fold_left reducer (repeat resetState n) (state w)
    /\ (n <= List.length (filter is_confirm evs))%nat
    /\ (n <= List.length (filter is_open_click evs) + (if open then 1 else 0))%nat.
Proof.
  induction evs as [|ev evs IH]; intros open w.
  - exists O. cbn. rewrite app_nil_r. repeat split; lia.
  - cbn [ResetDialog_run]. unfold after, bind in *.
    destruct ev; cbn [ResetDialog_event filter is_confirm is_open_click].
    + destruct (IH true w) as (n & H1 & H2 & H3 & H4).
      exists n. cbn [ret List.length]. repeat split; try assumption; lia.
    + destruct open.
      * unfold bind, dispatch, ret. cbn [fst snd].
        match goal with
        | |- context [ResetDialog_run reducer evs false ?w0] =>
            destruct (IH false w0) as (n & H1 & H2 & H3 & H4)
        end.
        exists (S n). rewrite H1, H2. cbn [set_state dispatched state].
        cbn [repeat fold_left List.length]. rewrite <- app_assoc.
        repeat split; try reflexivity; lia.
      * destruct (IH false w) as (n & H1 & H2 & H3 & H4).
        exists n. cbn [ret List.length]. repeat split; try assumption; lia.
    + destruct (IH false w) as (n & H1 & H2 & H3 & H4).
      exists n. cbn [ret]. repeat split; try assumption; destruct open; lia.
    + destruct (IH false w) as (n & H1 & H2 & H3 & H4).
      exists n. cbn [ret]. repeat split; try assumption; destruct open; lia.
Qed.

End ResetFacts.


(** ** JSON.parse: the values it returns *)

Module ParseFacts.
Import JSON.

(** *** Numbers come out in canonical form *)

Lemma strip_zeros_prefix s : exists k, s = repeat D0 k ++ strip_zeros s.
Proof.
  induction s as [|d r (k & IH)]; [exists O; reflexivity|].
  destruct d; try (exists O; reflexivity).
  exists (S k). cbn [repeat List.app strip_zeros]. rewrite <- IH. reflexivity.
Qed.

Lemma strip_zeros_nonzero s d r : strip_zeros s = d :: r -> d <> D0.
Proof.
  induction s as [|x s IH]; [discriminate|].
  destruct x; cbn [strip_zeros]; try (intros H; injection H as <- _; discriminate).
  exact IH.
Qed.

Lemma digit_eqb_neq d : d <> D0 -> digit_eqb d D0 = false.
Proof. destruct d; intros H; try reflexivity. contradiction. Qed.

Lemma make_number_canonical neg int frac e :
  canonical (make_number neg int frac e) = true
  /\ is_finite (make_number neg int frac e) = true.
Proof.
  unfold make_number. cbv zeta.
  set (a := strip_zeros (int ++ frac)).
  destruct (List.rev (strip_zeros (List.rev a))) as [|d r] eqn:E;
    [split; reflexivity|].
  split; [|reflexivity].
  cbn [canonical].
  destruct (strip_zeros (List.rev a)) as [|x b] eqn:Eb; [discriminate|].
  pose proof (strip_zeros_nonzero _ _ _ Eb) as Hx.
  cbn [List.rev] in E.
  assert (Hlast : last (d :: r) D1 = x) by (rewrite <- E; apply last_last).
  rewrite Hlast, (digit_eqb_neq x Hx).
  destruct (strip_zeros_prefix (List.rev a)) as (k & Hk).
  rewrite Eb in Hk. apply (f_equal (@List.rev digit)) in Hk.
  rewrite rev_involutive, rev_app_distr, JSONFacts.rev_repeat_D0 in Hk.
  cbn [List.rev] in Hk. rewrite E in Hk. cbn [List.app] in Hk.
  assert (Hd : d <> D0) by (apply (strip_zeros_nonzero (int ++ frac) d (r ++ repeat D0 k)); exact Hk).
  rewrite (digit_eqb_neq d Hd). reflexivity.
Qed.

(** *** A property key names one array index at most *)

Lemma string_digits_text k ds : string_digits k = Some ds -> k = digits_string ds.
Proof.
  revert ds. induction k as [|c k IH]; intros ds H.
  - injection H as <-. reflexivity.
  - cbn [string_digits] in H.
    destruct (unit_digit c) as [d|] eqn:Ec; [|discriminate].
    destruct (string_digits k) as [ds'|]; [|discriminate].
    injection H as <-. cbn [digits_string map]. f_equal; [|apply IH; reflexivity].
    unfold unit_digit in Ec.
    repeat match type of Ec with
           | match ?p with _ => _ end = _ => destruct p; try discriminate
           end; injection Ec as <-; reflexivity.
Qed.

Lemma uint_digits_uint ds : uint_digits (digits_uint ds) = ds.
Proof. induction ds as [|d ds IH]; [reflexivity|]. destruct d; cbn; congruence. Qed.

Lemma unorm_digits d r :
  (digit_eqb d D0 && negb (match r with [] => true | _ => false end)) = false ->
  Decimal.unorm (digits_uint (d :: r)) = digits_uint (d :: r).
Proof.
  destruct d; try reflexivity.
  destruct r; [reflexivity | discriminate].
Qed.

Lemma array_index_inj k k' i :
  array_index k = Some i -> array_index k' = Some i -> k = k'.
Proof.
  unfold array_index. intros H H'.
  destruct (string_digits k) as [[|d r]|] eqn:E; try discriminate.
  destruct (string_digits k') as [[|d' r']|] eqn:E'; try discriminate.
  destruct (digit_eqb d D0 && _) eqn:C; [discriminate|].
  destruct (digit_eqb d' D0 && _) eqn:C'; [discriminate|].
  destruct (digits_N (d :: r) <? 4294967295); [|discriminate].
  destruct (digits_N (d' :: r') <? 4294967295); [|discriminate].
  injection H as H. injection H' as H'. rewrite <- H' in H. unfold digits_N in H.
  apply DecimalN.Unsigned.of_inj in H.
  rewrite (unorm_digits d r C), (unorm_digits d' r' C') in H.
  apply (f_equal uint_digits) in H. rewrite !uint_digits_uint in H.
  apply string_digits_text in E, E'. congruence.
Qed.

(** *** Properties stay distinct and in enumeration order *)

Lemma distinct_keys_insert ka k kb :
  distinct_keys (ka ++ kb) = true ->
  existsb (fun a => jsstring_eqb a k) (ka ++ kb) = false ->
  distinct_keys (ka ++ k :: kb) = true.
Proof.
  induction ka as [|a ka IH]; cbn [List.app distinct_keys existsb].
  - intros Hd Hk. rewrite Hk, Hd. reflexivity.
  - rewrite andb_true_iff, negb_true_iff, orb_false_iff.
    intros [Ha Hd] [Hak Hk].
    rewrite (IH Hd Hk), andb_true_r. apply negb_true_iff.
    rewrite existsb_app in *. cbn [existsb].
    apply orb_false_iff in Ha. destruct Ha as [Ha1 Ha2].
    rewrite Ha1, Ha2, SpecStore.jsstring_eqb_sym, Hak. reflexivity.
Qed.

Lemma insert_index_split i k v o :
  exists a b, o = a ++ b /\ insert_index i k v o = a ++ (k, v) :: b.
Proof.
  induction o as [|[k' v'] o (a & b & Ho & Hi)].
  - exists [], []. split; reflexivity.
  - cbn [insert_index]. destruct (array_index k') as [j|].
    + destruct (j <? i).
      * exists ((k', v') :: a), b. rewrite Hi, Ho at 1. split; reflexivity.
      * exists [], ((k', v') :: o). split; reflexivity.
    + exists [], ((k', v') :: o). split; reflexivity.
Qed.

Lemma ordered_keys_plain ks lo lo' :
  ordered_keys lo true ks = true -> ordered_keys lo' true ks = true.
Proof.
  revert lo lo'. induction ks as [|k ks IH]; intros lo lo' H; [reflexivity|].
  cbn [ordered_keys] in *. destruct (array_index k); [discriminate|].
  exact (IH _ _ H).
Qed.

Lemma ordered_keys_insert i k v o : forall lo,
  array_index k = Some i ->
  has_key k o = false ->
  ordered_keys lo false (map fst o) = true ->
  (forall j, lo = Some j -> j < i) ->
  ordered_keys lo false (map fst (insert_index i k v o)) = true.
Proof.
  intros lo Hk. revert lo.
  induction o as [|[k' v'] o IH]; intros lo Hno Ho Hlo.
  - cbn. rewrite Hk. cbn. destruct lo as [j|]; [|reflexivity].
    rewrite andb_true_r. apply N.ltb_lt. auto.
  - cbn [has_key existsb fst] in Hno. apply orb_false_iff in Hno.
    destruct Hno as [Hkk Hno]. change (existsb _ o) with (has_key k o) in Hno.
    cbn [map fst ordered_keys insert_index] in *.
    assert (Hhead : match lo with Some j => j <? i | None => true end = true).
    { destruct lo as [j|]; [apply N.ltb_lt; auto | reflexivity]. }
    destruct (array_index k') as [j|] eqn:Ek'.
    + cbn [negb andb] in Ho. apply andb_true_iff in Ho. destruct Ho as [Hlj Ho].
      destruct (N.ltb_spec j i) as [Hji|Hij].
      * cbn [map fst ordered_keys]. rewrite Ek'. cbn [negb andb].
        rewrite Hlj. cbn [andb]. apply IH; try assumption.
        intros j0 E; injection E as <-. exact Hji.
      * cbn [map fst ordered_keys]. rewrite Hk, Ek'. cbn [negb andb].
        rewrite Hhead, Ho, andb_true_r. cbn [andb]. apply N.ltb_lt.
        assert (j <> i).
        { intros ->. apply jsstring_eqb_neq in Hkk. apply Hkk.
          exact (array_index_inj _ _ _ Ek' Hk). }
        lia.
    + cbn [map fst ordered_keys]. rewrite Hk, Ek'. cbn [negb andb].
      rewrite Hhead. cbn [andb]. exact (ordered_keys_plain _ _ _ Ho).
Qed.

Lemma insert_index_forallb (P : value -> bool) i k v o :
  P v = true ->
  forallb (fun kv => P (snd kv)) o = true ->
  forallb (fun kv => P (snd kv)) (insert_index i k v o) = true.
Proof.
  intros Hv Ho. destruct (insert_index_split i k v o) as (a & b & -> & ->).
  rewrite forallb_app in *. cbn [forallb snd]. rewrite Hv.
  apply andb_true_iff in Ho. destruct Ho as [-> ->]. reflexivity.
Qed.

Lemma CreateDataProperty_forallb (P : value -> bool) o k v :
  P v = true ->
  forallb (fun kv => P (snd kv)) o = true ->
  forallb (fun kv => P (snd kv)) (CreateDataProperty o k v) = true.
Proof.
  intros Hv Ho. unfold CreateDataProperty.
  destruct (has_key k o); [apply SpecStore.replace_prop_forallb; assumption|].
  destruct (array_index k).
  - apply insert_index_forallb; assumption.
  - rewrite forallb_app, Ho. cbn. rewrite Hv. reflexivity.
Qed.

(** CreateDataProperty keeps an object well formed. *)
Lemma CreateDataProperty_well_formed o k v :
  well_formed (JObject o) = true -> well_formed v = true ->
  well_formed (JObject (CreateDataProperty o k v)) = true.
Proof.
  cbn [well_formed]. rewrite !andb_true_iff. intros [[Hd Ho] Hall] Hv.
  split; [|apply CreateDataProperty_forallb; assumption].
  unfold CreateDataProperty. destruct (has_key k o) eqn:Hk.
  - rewrite SpecStore.replace_prop_keys. auto.
  - destruct (array_index k) as [i|] eqn:Ei.
    + split.
      * destruct (insert_index_split i k v o) as (a & b & E & ->).
        subst o. rewrite map_app in *. cbn [map fst].
        apply distinct_keys_insert; [exact Hd|].
        rewrite <- map_app, JSONFacts.existsb_map_fst. exact Hk.
      * apply ordered_keys_insert; try assumption. discriminate.
    + rewrite map_app. split.
      * apply SpecStore.distinct_keys_snoc; [exact Hd|].
        rewrite JSONFacts.existsb_map_fst. exact Hk.
      * apply SpecStore.ordered_keys_snoc; assumption.
Qed.

Lemma forallb_snoc {A} (P : A -> bool) l x :
  forallb P l = true -> P x = true -> forallb P (l ++ [x]) = true.
Proof. intros H1 H2. rewrite forallb_app, H1. cbn. rewrite H2. reflexivity. Qed.

Lemma parse_number_good s v rest :
  parse_number s = POk v rest -> well_formed v = true /\ finite_value v = true.
Proof.
  assert (Hu : forall neg s1, parse_unsigned neg s1 = POk v rest ->
                              well_formed v = true /\ finite_value v = true).
  { intros neg s1. unfold parse_unsigned.
    destruct (parse_int_part s1) as [[int s2]|]; [|discriminate].
    destruct (parse_frac s2) as [[frac s3]|]; [|discriminate].
    destruct (parse_exp s3) as [[e s4]|]; [|discriminate].
    intros H. injection H as <- _. cbn [well_formed finite_value].
    apply make_number_canonical. }
  unfold parse_number. destruct s as [|c r]; [discriminate|].
  destruct (c =? 45); apply Hu.
Qed.

Lemma parse_good fuel :
  (forall s v rest, parse_value fuel s = POk v rest ->
                    well_formed v = true /\ finite_value v = true)
  /\ (forall acc s v rest,
        forallb well_formed acc = true -> forallb finite_value acc = true ->
        parse_elements fuel acc s = POk v rest ->
        well_formed v = true /\ finite_value v = true)
  /\ (forall acc s v rest,
        well_formed (JObject acc) = true -> finite_value (JObject acc) = true ->
        parse_members fuel acc s = POk v rest ->
        well_formed v = true /\ finite_value v = true).
Proof.
  induction fuel as [|f (IHv & IHe & IHm)]; [repeat split; discriminate|].
  split; [|split].
  - intros s v rest H. cbn [parse_value] in H.
    JSONTotal.break_match H;
      try (injection H as <- _; split; reflexivity);
      try (apply parse_number_good in H; exact H).
    + apply (IHm [] _ _ _ eq_refl eq_refl H).
    + apply (IHe [] _ _ _ eq_refl eq_refl H).
  - intros acc s v rest Hw Hf H. cbn [parse_elements] in H.
    destruct (parse_value f s) as [e rest1| |] eqn:E; try discriminate.
    destruct (IHv _ _ _ E) as [He1 He2].
    JSONTotal.break_match H.
    + apply (IHe (acc ++ [e]) _ _ _ (forallb_snoc _ _ _ Hw He1)
               (forallb_snoc _ _ _ Hf He2) H).
    + injection H as <- _. cbn [well_formed finite_value].
      split; apply forallb_snoc; assumption.
  - intros acc s v rest Hw Hf H. cbn [parse_members] in H.
    JSONTotal.break_match H;
      match goal with
      | E : parse_value f _ = POk ?e _ |- _ =>
          destruct (IHv _ _ _ E) as [He1 He2]
      end;
      match type of H with
      | context [CreateDataProperty acc ?k ?e] =>
          pose proof (CreateDataProperty_well_formed acc k e Hw He1) as Hw';
          pose proof (CreateDataProperty_forallb finite_value acc k e He2 Hf) as Hf'
      end.
    + apply (IHm _ _ _ _ Hw' Hf' H).
    + injection H as <- _. split; assumption.
Qed.

End ParseFacts.

Lemma parse_result_good :
  (forall text v,
      JSON.parse text = Some v ->
      well_formed v = true /\ finite_value v = true).
Proof.
  intros text v H. unfold JSON.parse in H.
  destruct (JSON.parse_value (2 * List.length text + 1) text)
    as [v0 rest| |] eqn:E; try discriminate.
  destruct (JSON.skip_ws rest); [|discriminate]. injection H as <-.
  exact (proj1 (ParseFacts.parse_good _) _ _ _ E).
Qed.



(** ** JSON.stringify: the text is well-formed UTF-16 *)

Module PairFacts.
Import JSON.

Lemma plain_unit_not_surrogate c :
  plain_unit c = true -> is_high_surrogate c = false /\ is_low_surrogate c = false.
Proof.
  unfold plain_unit, is_high_surrogate, is_low_surrogate.
  rewrite N.ltb_lt, !andb_false_iff, !N.leb_gt. lia.
Qed.

Lemma well_paired_cons c r :
  is_high_surrogate c = false -> is_low_surrogate c = false ->
  well_paired (c :: r) = well_paired r.
Proof. intros H1 H2. cbn [well_paired]. rewrite H1, H2. reflexivity. Qed.

Lemma well_paired_app_le n : forall a b,
  (List.length a <= n)%nat ->
  well_paired a = true -> well_paired b = true -> well_paired (a ++ b) = true.
Proof.
  induction n as [|n IH]; intros a b Hn Ha Hb.
  - destruct a; [exact Hb | simpl in Hn; lia].
  - destruct a as [|c r]; [exact Hb|]. simpl in Hn.
    cbn [List.app well_paired] in *.
    destruct (is_high_surrogate c).
    + destruct r as [|c2 r2]; [discriminate|]. cbn [List.app].
      apply andb_true_iff in Ha. destruct Ha as [-> Ha]. cbn [andb].
      apply IH; [simpl in Hn; lia | assumption | assumption].
    + apply andb_true_iff in Ha. destruct Ha as [-> Ha]. cbn [andb].
      apply IH; [lia | assumption | assumption].
Qed.

Lemma well_paired_app a b :
  well_paired a = true -> well_paired b = true -> well_paired (a ++ b) = true.
Proof. apply (well_paired_app_le (List.length a)). lia. Qed.

Lemma plain_well_paired s : forallb plain_unit s = true -> well_paired s = true.
Proof.
  induction s as [|c r IH]; [reflexivity|].
  cbn [forallb]. rewrite andb_true_iff. intros [Hc Hr].
  destruct (plain_unit_not_surrogate c Hc) as [H1 H2].
  rewrite well_paired_cons by assumption. auto.
Qed.

Lemma hex_unit_plain n : n < 16 -> plain_unit (hex_unit n) = true.
Proof.
  intros H. unfold plain_unit, hex_unit. apply N.ltb_lt.
  destruct (n <? 10); lia.
Qed.

Lemma UnicodeEscape_plain c : forallb plain_unit (UnicodeEscape c) = true.
Proof.
  unfold UnicodeEscape, hex4. cbn [List.app str map list_ascii_of_string forallb].
  rewrite !hex_unit_plain by (apply N.mod_lt; discriminate). reflexivity.
Qed.

Lemma quote_unit_paired c :
  is_high_surrogate c = false -> is_low_surrogate c = false ->
  well_paired (quote_unit c) = true.
Proof.
  intros H1 H2. unfold quote_unit.
  repeat match goal with
         | |- context [if ?x =? ?y then _ else _] =>
             destruct (x =? y); [reflexivity|]
         end.
  destruct (c <? 32).
  - apply plain_well_paired, UnicodeEscape_plain.
  - rewrite well_paired_cons by assumption. reflexivity.
Qed.

Lemma quote_body_paired_le n : forall s,
  (List.length s <= n)%nat -> well_paired (quote_body s) = true.
Proof.
  induction n as [|n IH]; intros s Hn.
  - destruct s; [reflexivity | simpl in Hn; lia].
  - destruct s as [|c r]; [reflexivity|]. simpl in Hn. cbn [quote_body].
    assert (IHr : well_paired (quote_body r) = true) by (apply IH; lia).
    pose proof (plain_well_paired _ (UnicodeEscape_plain c)) as Hesc.
    destruct (is_high_surrogate c) eqn:Hh.
    + destruct r as [|c2 r2]; [exact Hesc|].
      destruct (is_low_surrogate c2) eqn:Hl.
      * cbn [well_paired]. rewrite Hh, Hl. cbn [andb].
        apply IH. simpl in Hn. lia.
      * apply well_paired_app; assumption.
    + destruct (is_low_surrogate c) eqn:Hl.
      * apply well_paired_app; assumption.
      * apply well_paired_app; [apply quote_unit_paired|]; assumption.
Qed.

Lemma QuoteJSONString_paired s : well_paired (QuoteJSONString s) = true.
Proof.
  unfold QuoteJSONString.
  change (34 :: quote_body s ++ [34]) with ([34] ++ quote_body s ++ [34]).
  apply well_paired_app; [reflexivity|].
  apply well_paired_app; [|reflexivity].
  apply (quote_body_paired_le (List.length s)). lia.
Qed.

Lemma digits_string_plain ds : forallb plain_unit (digits_string ds) = true.
Proof.
  induction ds as [|d ds IH]; [reflexivity|].
  cbn [digits_string map forallb]. fold (digits_string ds). rewrite IH.
  destruct d; reflexivity.
Qed.

Lemma NumberToString_plain x : forallb plain_unit (NumberToString x) = true.
Proof.
  destruct x as [|neg|neg [|d r] n]; try reflexivity.
  - destruct neg; reflexivity.
  - cbn [NumberToString]. rewrite forallb_app.
    apply andb_true_iff. split; [destruct neg; reflexivity|].
    unfold positive_to_string. cbv zeta.
    repeat match goal with
           | |- context [if ?b then _ else _] => destruct b
           | |- context [match ?l with [] => _ | _ :: _ => _ end] => destruct l
           end;
      rewrite ?forallb_app, ?digits_string_plain; reflexivity.
Qed.

Lemma join_paired sep parts :
  well_paired sep = true ->
  Forall (fun p => well_paired p = true) parts ->
  well_paired (join sep parts) = true.
Proof.
  intros Hs. induction 1 as [|p ps Hp _ IH]; [reflexivity|].
  destruct ps as [|q ps']; [exact Hp|].
  change (join sep (p :: q :: ps')) with (p ++ sep ++ join sep (q :: ps')).
  apply well_paired_app; [exact Hp|]. apply well_paired_app; assumption.
Qed.

Lemma bracket_paired (a b : N) t :
  plain_unit a = true -> plain_unit b = true ->
  well_paired t = true -> well_paired ([a] ++ t ++ [b]) = true.
Proof.
  intros Ha Hb Ht.
  apply well_paired_app; [apply plain_well_paired; cbn; rewrite Ha; reflexivity|].
  apply well_paired_app; [exact Ht|].
  apply plain_well_paired; cbn; rewrite Hb; reflexivity.
Qed.

Lemma text_of_paired v : well_paired (text_of v) = true.
Proof.
  induction v as [| |b|x|s|l IHl|ps IHps] using value_ind'; try reflexivity.
  - destruct b; reflexivity.
  - unfold text_of. cbn [SerializeJSONProperty].
    destruct (is_finite x); [|reflexivity].
    apply plain_well_paired, NumberToString_plain.
  - apply QuoteJSONString_paired.
  - rewrite JSONFacts.text_of_array.
    apply (bracket_paired 91 93); try reflexivity.
    apply join_paired; [reflexivity|].
    apply Forall_map. exact IHl.
  - unfold text_of. cbn [SerializeJSONProperty].
    apply (bracket_paired 123 125); try reflexivity.
    apply join_paired; [reflexivity|].
    induction IHps as [|[k e] ps He _ IH]; [constructor|].
    cbn [flat_map snd fst]. apply Forall_app. split; [|exact IH].
    cbn [snd] in He. unfold text_of in He.
    destruct (SerializeJSONProperty e) as [t|]; [|constructor].
    constructor; [|constructor].
    apply well_paired_app; [apply QuoteJSONString_paired|].
    apply well_paired_app; [reflexivity | exact He].
Qed.

End PairFacts.

(** X13: the text JSON.stringify writes, and so the content of every
    exported file, is well-formed UTF-16 whatever strings the state holds:
    a surrogate that is not half of a pair is written as an escape, and no
    surrogate is left alone in the text. *)
Theorem exported_text_well_paired :
  (forall v text, JSON.stringify v = Some text -> well_paired text = true)
  /\ (forall iso w, well_paired (content (export_click iso w)) = true).
Proof.
  assert (H : forall v text, JSON.stringify v = Some text -> well_paired text = true).
  { intros v text Hs. pose proof (PairFacts.text_of_paired v) as Hp.
    unfold text_of in Hp. unfold JSON.stringify in Hs. rewrite Hs in Hp. exact Hp. }
  split; [exact H|].
  intros iso w. unfold export_click, fullStateJson. cbn [content].
  destruct (JSON.stringify (state w)) as [t|] eqn:E; [exact (H _ _ E) | reflexivity].
Qed.

Lemma exported_text_well_paired_witness :
  well_paired [116; 55357] = false
  /\ well_paired (content (export_click [] (world_with lone_surrogate_state))) = true.
Proof.
  split; [reflexivity|].
  apply (proj2 exported_text_well_paired [] (world_with lone_surrogate_state)).
Defined.

(** ** Importing, exporting and importing again *)



(** ** The import button: an empty file *)

Lemma skip_ws_blank text :
  forallb JSON.is_ws text = true -> JSON.skip_ws text = [].
Proof.
  induction text as [|c r IH]; [reflexivity|].
  cbn [forallb JSON.skip_ws]. rewrite andb_true_iff. intros [-> Hr]. auto.
Qed.

(** X14: a file that is empty, or holds nothing but spaces, tabs and line
    ends, does not parse: the import callback dispatches nothing, leaves the
    state tree as it was and writes its message to the console. *)
Theorem import_blank_file reducer text w :
  forallb JSON.is_ws text = true ->
  JSON.parse text = None
  /\ on_file_text reducer text w
     = console_error (str "Failed to parse state file:") w.
Proof.
  intros Hb.
  assert (Hp : JSON.parse text = None).
  { unfold JSON.parse. rewrite Nat.add_1_r. cbn [JSON.parse_value].
    rewrite (skip_ws_blank _ Hb). reflexivity. }
  split; [exact Hp|]. rewrite ImportFacts.on_file_text_cases, Hp. reflexivity.
Qed.

Lemma import_blank_file_witness :
  JSON.parse [] = None
  /\ on_file_text spec_reducer [] empty_world
     = console_error (str "Failed to parse state file:") empty_world.
Proof. apply (import_blank_file spec_reducer [] empty_world). reflexivity. Defined.

(** ** Objects: creating a property and reading it *)

Module PropFacts.
Import JSON.

Lemma find_app {A} (p : A -> bool) a l :
  find p (a ++ l) = match find p a with Some x => Some x | None => find p l end.
Proof.
  induction a as [|x a IH]; [reflexivity|].
  cbn [List.app find]. destruct (p x); [reflexivity | exact IH].
Qed.

Lemma find_absent k (a : list (jsstring * value)) :
  existsb (fun kv => jsstring_eqb (fst kv) k) a = false ->
  find (fun kv => jsstring_eqb (fst kv) k) a = None.
Proof.
  induction a as [|x a IH]; [reflexivity|].
  cbn [existsb find]. rewrite orb_false_iff. intros [-> H]. auto.
Qed.

Lemma get_prop_placed a b k v :
  has_key k (a ++ b) = false ->
  get_prop (a ++ (k, v) :: b) k = v
  /\ forall k', k' <> k -> get_prop (a ++ (k, v) :: b) k' = get_prop (a ++ b) k'.
Proof.
  unfold has_key, get_prop. rewrite existsb_app, orb_false_iff. intros [Ha _].
  split.
  - rewrite find_app, (find_absent _ _ Ha). cbn [find fst].
    rewrite jsstring_eqb_refl. reflexivity.
  - intros k' Hk. rewrite !find_app. cbn [find fst].
    replace (jsstring_eqb k k') with false
      by (symmetry; apply jsstring_eqb_neq; congruence).
    reflexivity.
Qed.

Lemma get_prop_replaced o k v :
  has_key k o = true ->
  get_prop (replace_prop k v o) k = v
  /\ forall k', k' <> k -> get_prop (replace_prop k v o) k' = get_prop o k'.
Proof.
  unfold has_key, get_prop.
  induction o as [|[a x] o IH]; [discriminate|].
  cbn [existsb replace_prop fst]. destruct (jsstring_eqb a k) eqn:E.
  - intros _. split.
    + cbn [find fst]. rewrite E. reflexivity.
    + intros k' Hk. cbn [find fst]. apply jsstring_eqb_eq in E. subst a.
      replace (jsstring_eqb k k') with false
        by (symmetry; apply jsstring_eqb_neq; congruence).
      reflexivity.
  - cbn [orb]. intros H. destruct (IH H) as [IH1 IH2]. split.
    + cbn [find fst]. rewrite E. exact IH1.
    + intros k' Hk. cbn [find fst]. destruct (jsstring_eqb a k'); [reflexivity|].
      exact (IH2 k' Hk).
Qed.

End PropFacts.

(** X15: after a property is created on an object, reading its key gives
    the value just written, whether the key was new or already there, and
    reading any other key gives what it gave before; so, of two properties
    of the same key in a session file, the one written last is the one
    loaded. *)
Theorem CreateDataProperty_get o k v :
  get_prop (JSON.CreateDataProperty o k v) k = v
  /\ forall k', k' <> k ->
       get_prop (JSON.CreateDataProperty o k v) k' = get_prop o k'.
Proof.
  unfold JSON.CreateDataProperty. destruct (JSON.has_key k o) eqn:Hk.
  - apply PropFacts.get_prop_replaced. exact Hk.
  - destruct (JSON.array_index k) as [i|].
    + destruct (ParseFacts.insert_index_split i k v o) as (a & b & -> & ->).
      apply PropFacts.get_prop_placed. exact Hk.
    + pose proof (PropFacts.get_prop_placed o [] k v) as H.
      rewrite app_nil_r in H. apply H. exact Hk.
Qed.

(** ** The auth probe: the name it stores *)

(** X16: whatever the endpoint replies, an identity set by the probe never
    has an absent or otherwise falsy name other than the empty string: the
    name is a truthy value taken from a claim, or the empty string. *)
Theorem auth_probe_name reply w u :
  userInfo w = None ->
  userInfo (after (auth_probe reply) w) = Some u ->
  truthy (name u) = true \/ name u = JString [].
Proof.
  intros Hnone Hset.
  unfold after, auth_probe, catch, bind, fetch, response_json, ret in Hset.
  destruct reply as [|body]; [cbn in Hset; congruence|].
  destruct (JSON.parse body) as [result|]; [|cbn in Hset; congruence].
  destruct (auth_then_cases result w)
    as [[Hn _]|[[e He]|(authInfo & rest & claims & found & val & uid
                        & _ & _ & _ & _ & _ & H5)]].
  - rewrite Hn in Hset. cbn in Hset. congruence.
  - rewrite He in Hset. cbn in Hset. congruence.
  - rewrite H5 in Hset. cbn in Hset. injection Hset as <-. cbn [name].
    destruct (truthy val) eqn:E; auto.
Qed.

Lemma auth_probe_name_witness :
  truthy (JString (str "Ada")) = true \/ JString (str "Ada") = JString [].
Proof.
  apply (auth_probe_name (Response auth_body) empty_world
           {| name := JString (str "Ada");
              userId := JString (str "ada@example.org") |});
    vm_compute; reflexivity.
Defined.

Lemma CreateDataProperty_get_witness :
  get_prop (JSON.CreateDataProperty [(str "a", JNull); (str "b", JBool true)]
              (str "a") (JBool false)) (str "b")
  = JBool true.
Proof.
  apply (proj2 (CreateDataProperty_get [(str "a", JNull); (str "b", JBool true)]
                  (str "a") (JBool false)) (str "b")).
  discriminate.
Defined.
